(** * YouTube transcription pipeline: acquisition, matching and artifact fan-out

    A shallow embedding of [youtube_downloader.py] and
    [transcript_processor.py].  Python [str] values are modelled as
    [string], one [ascii] per character; catalog tables are lists of rows
    in insertion order and a row's primary key is its position in its
    table (the system never deletes rows); the external collaborators
    (file system, fetch engine, inference service, clock, date and JSON
    parsers) are fields of an environment record; Python exceptions are
    the [Raise] outcome of a small state-and-exception monad. *)

From Stdlib Require Import String Ascii List Bool ZArith Lia.
Import ListNotations.
#[local] Set Warnings "-abstract-large-number".
Local Open Scope string_scope.

(** ** Python string primitives *)

Module PyStr.

(** [s.startswith(p)] *)
Fixpoint startswith (p s : string) : bool :=
  match p with
  | EmptyString => true
  | String a p' =>
      match s with
      | EmptyString => false
      | String b s' => Ascii.eqb a b && startswith p' s'
      end
  end.

Fixpoint rev_acc (s acc : string) : string :=
  match s with
  | EmptyString => acc
  | String a s' => rev_acc s' (String a acc)
  end.

Definition rev (s : string) : string := rev_acc s EmptyString.

(** [s.endswith(p)] *)
Definition endswith (p s : string) : bool := startswith (rev p) (rev s).

(** [s[:n]] for a non-negative constant [n] *)
Fixpoint take (n : nat) (s : string) : string :=
  match n with
  | O => EmptyString
  | S n' =>
      match s with
      | EmptyString => EmptyString
      | String a s' => String a (take n' s')
      end
  end.

(** [c in s] for a one-character [c] *)
Fixpoint contains_char (c : ascii) (s : string) : bool :=
  match s with
  | EmptyString => false
  | String a s' => Ascii.eqb a c || contains_char c s'
  end.

(** [s.replace(old, new)] for a non-empty [old]: every non-overlapping
    occurrence, leftmost first.  [skip] counts the characters of an
    occurrence that is being stepped over. *)
Fixpoint replace_go (old new : string) (skip : nat) (s : string) : string :=
  match s with
  | EmptyString => EmptyString
  | String a s' =>
      match skip with
      | S k => replace_go old new k s'
      | O =>
          if startswith old s
          then new ++ replace_go old new (String.length old - 1) s'
          else String a (replace_go old new 0 s')
      end
  end.

Definition replace (old new s : string) : string := replace_go old new 0 s.

(** [s.split(sep, 1)] for a one-character [sep]: the part before the
    first separator and, when there is one, the rest. *)
Fixpoint split_once (sep : ascii) (s : string) : string * option string :=
  match s with
  | EmptyString => (EmptyString, None)
  | String a s' =>
      if Ascii.eqb a sep then (EmptyString, Some s')
      else let (h, t) := split_once sep s' in (String a h, t)
  end.

Definition split1 (sep : ascii) (s : string) : list string :=
  match split_once sep s with
  | (h, None) => [h]
  | (h, Some t) => [h; t]
  end.

(** [s.split(sep)] for a one-character [sep] *)
Fixpoint split_go (sep : ascii) (cur : string) (s : string) : list string :=
  match s with
  | EmptyString => [rev cur]
  | String a s' =>
      if Ascii.eqb a sep then rev cur :: split_go sep EmptyString s'
      else split_go sep (String a cur) s'
  end.

Definition split (sep : ascii) (s : string) : list string :=
  split_go sep EmptyString s.

(** [c.isspace()] on the 8-bit characters of the model *)
Definition isspace (c : ascii) : bool :=
  let n := nat_of_ascii c in
  ((9 <=? n) && (n <=? 13) || (28 <=? n) && (n <=? 32)
   || (n =? 133) || (n =? 160))%nat.

Fixpoint lstrip (s : string) : string :=
  match s with
  | EmptyString => EmptyString
  | String a s' => if isspace a then lstrip s' else s
  end.

(** [s.strip()] *)
Definition strip (s : string) : string := rev (lstrip (rev (lstrip s))).

(** [len(s.split())]: the number of maximal runs of non-space characters.
    [inword] tells whether the previous character belonged to a run. *)
Fixpoint count_words (inword : bool) (s : string) : nat :=
  match s with
  | EmptyString => 0
  | String a s' =>
      if isspace a then count_words false s'
      else (if inword then 0 else 1) + count_words true s'
  end.

Definition word_count (s : string) : nat := count_words false s.

(** ASCII lower-casing, the case folding of the catalog's [ILIKE] *)
Definition lower (c : ascii) : ascii :=
  let n := nat_of_ascii c in
  if ((65 <=? n) && (n <=? 90))%nat then ascii_of_nat (n + 32) else c.

End PyStr.

(** ** [pathlib.PurePosixPath]: [name] and [stem] *)

Module PyPath.

Definition slash : ascii := "/"%char.
Definition dot : ascii := "."%char.

(** the components of a path: empty ones and ["."] are dropped *)
Definition parts (p : string) : list string :=
  filter (fun c => negb (String.eqb c "" || String.eqb c "."))
         (PyStr.split slash p).

(** [Path(p).name]: the last component, [""] when there is none *)
Definition name (p : string) : string := last (parts p) "".

(** [name.rfind('.')], as the length of the part before the last dot *)
Fixpoint rfind_dot (s : string) : option nat :=
  match s with
  | EmptyString => None
  | String a s' =>
      match rfind_dot s' with
      | Some i => Some (S i)
      | None => if Ascii.eqb a dot then Some 0 else None
      end
  end.

(** [Path(p).stem]: the name without its last suffix; a leading or a
    trailing dot starts no suffix *)
Definition stem_of_name (n : string) : string :=
  match rfind_dot n with
  | Some i =>
      if ((0 <? i) && (i <? String.length n - 1))%nat
      then PyStr.take i n else n
  | None => n
  end.

Definition stem (p : string) : string := stem_of_name (name p).

(** [os.path.join(a, b)] *)
Definition join (a b : string) : string :=
  if PyStr.startswith "/" b then b
  else if String.eqb a "" || PyStr.endswith "/" a then a ++ b
  else a ++ "/" ++ b.

End PyPath.

(** ** The catalog's [ILIKE] operator

    A pattern is matched against the whole value, ["%"] standing for any
    run of characters and ["_"] for any one character; a backslash is the
    escape character: it matches nothing itself and makes the pattern
    character after it stand for that very character.  Letters compare
    without regard to case.  A pattern that ends in an escape character
    with nothing after it is an error of the catalog and matches nothing
    here; the pattern of the title query ends in ["%"], so it is never of
    that kind. *)
Module Sql.

Definition percent : ascii := "%"%char.
Definition underscore : ascii := "_"%char.
Definition backslash : ascii := "092"%char.

Fixpoint ilike (pat : string) : string -> bool :=
  match pat with
  | EmptyString => fun s => match s with EmptyString => true | _ => false end
  | String p pat' =>
      if Ascii.eqb p percent then
        fix star (s : string) : bool :=
          ilike pat' s
          || match s with
             | EmptyString => false
             | String _ s' => star s'
             end
      else if Ascii.eqb p backslash then
        match pat' with
        | EmptyString => fun _ => false
        | String q pat'' =>
            fun s =>
              match s with
              | EmptyString => false
              | String c s' =>
                  Ascii.eqb (PyStr.lower q) (PyStr.lower c) && ilike pat'' s'
              end
        end
      else
        fun s =>
          match s with
          | EmptyString => false
          | String c s' =>
              (Ascii.eqb p underscore
               || Ascii.eqb (PyStr.lower p) (PyStr.lower c))
              && ilike pat' s'
          end
  end.

(** [closed pat]: [pat] does not end in an escape character with nothing
    after it, so the character that follows [pat] in a longer pattern is
    not escaped *)
Fixpoint closed (pat : string) : bool :=
  match pat with
  | EmptyString => true
  | String p pat' =>
      if Ascii.eqb p backslash then
        match pat' with
        | EmptyString => false
        | String _ pat'' => closed pat''
        end
      else closed pat'
  end.



End Sql.

(** ** Catalog rows *)

#[local] Unset Elimination Schemes.
Inductive Json : Type :=
| JNull
| JBool (b : bool)
| JNum (n : Z)
| JStr (s : string)
| JArr (l : list Json)
| JObj (l : list (string * Json)).
#[local] Set Elimination Schemes.

Record Date : Type := { year : Z; month : Z; day : Z }.

Inductive DownloadStatus : Type := pending | downloading | completed | failed.

(** [channel_name] is a text or null. *)
Module Channel.
Record t : Type := {
  channel_id : string;
  channel_name : option string;
  channel_url : string;
  is_active : bool
}.
End Channel.

Module Video.
Record t : Type := {
  channel_id : nat;
  video_id : string;
  title : string;
  description : string;
  duration : Z;
  upload_date : option Date;
  thumbnail_url : string;
  video_url : string;
  download_status : DownloadStatus;
  downloaded_at : option string;
  file_path : option string
}.
End Video.

Module Transcript.
Record t : Type := {
  video_id : nat;
  raw_transcript : string;
  transcript_format : string;
  word_count : nat;
  language : string;
  transcribed_at : string
}.
End Transcript.

Inductive ProcessType : Type := summary | chapters | keywords | insights.

Module ProcessedContent.
Record t : Type := {
  transcript_id : nat;
  processing_type : ProcessType;
  content : Json;
  model_used : string;
  tokens_used : option Z;
  processing_time_ms : Z
}.
End ProcessedContent.

(** The four tables.  A row's key ([id]) is its position. *)
Record Catalog : Type := {
  channels : list Channel.t;
  videos : list Video.t;
  transcripts : list Transcript.t;
  processed_content : list ProcessedContent.t
}.

(** The catalog together with the requests sent to the inference
    service ([model], [prompt]) and to the fetch engine (download URLs). *)
Record World : Type := {
  catalog : Catalog;
  llm_requests : list (string * string);
  ydl_downloads : list string
}.

Definition with_catalog (f : Catalog -> Catalog) (w : World) : World :=
  {| catalog := f (catalog w);
     llm_requests := llm_requests w;
     ydl_downloads := ydl_downloads w |}.

(** ** The external collaborators *)

(** One entry of the fetch engine's listing; [None] is an absent key. *)
Module Entry.
Record t : Type := {
  id : string;
  title : option string;
  description : option string;
  duration : option Z;
  upload_date : option string;
  thumbnail : option string;
  channel : option string
}.
End Entry.

(** A chat completion: the message contents of its choices (a content can
    be [None]) and the reported token total. *)
Record Completion : Type := {
  choices : list (option string);
  total_tokens : option Z
}.

Record FileEvent : Type := { is_directory : bool; src_path : string }.

Record Env : Type := {
  (** [open(path).read()]; [None] when it raises *)
  read_text : string -> option string;
  (** entries below the watched folder, in enumeration order *)
  watched_entries : list string;
  (** [chat.completions.create(model, prompt)]; [None] when it raises *)
  create_completion : string -> string -> option Completion;
  (** [extract_info(url, download=False)]; [None] when it raises *)
  extract_info : string -> option (list Entry.t);
  (** [extract_info(url, download=False, process=False)], of which only
      the key [uploader] is read; [None] when the call raises, [Some None]
      when the key is absent, [Some (Some v)] when it is present with the
      value [v], a text or Python's [None] *)
  extract_uploader : string -> option (option (option string));
  (** [ydl.download([url])]; [false] when it raises *)
  download : string -> bool;
  (** [datetime.strptime(s, '%Y%m%d').date()]; [None] when it raises *)
  strptime_ymd : string -> option Date;
  (** [json.loads(s)]; [None] when it raises *)
  json_loads : string -> option Json;
  (** [datetime.now().isoformat()] *)
  now_isoformat : string;
  (** the measured duration of a derivation task *)
  elapsed_ms : ProcessType -> Z;
  (** configuration *)
  channel_list : list string;
  watched_folder : string;
  max_videos : Z
}.

(** ** Computations that change the world and may raise *)

Inductive Exception : Type :=
| OSError | KeyError | IndexError | AttributeError | ValueError
| TypeError | APIError | DownloadError.

Inductive Outcome (A : Type) : Type :=
| Return (a : A)
| Raise (e : Exception).
Arguments Return {A} a.
Arguments Raise {A} e.

Definition M (A : Type) : Type := World -> Outcome A * World.

Definition ret {A} (a : A) : M A := fun w => (Return a, w).

Definition raise {A} (e : Exception) : M A := fun w => (Raise e, w).

Definition bind {A B} (m : M A) (k : A -> M B) : M B :=
  fun w =>
    match m w with
    | (Return a, w') => k a w'
    | (Raise e, w') => (Raise e, w')
    end.

(** [try: m  except Exception as e: h e] *)
Definition try_except {A} (m : M A) (h : Exception -> M A) : M A :=
  fun w =>
    match m w with
    | (Return a, w') => (Return a, w')
    | (Raise e, w') => h e w'
    end.

Definition get_catalog : M Catalog := fun w => (Return (catalog w), w).

Definition modify_catalog (f : Catalog -> Catalog) : M unit :=
  fun w => (Return tt, with_catalog f w).

Notation "x <- m ;; k" := (bind m (fun x => k))
  (at level 61, m at next level, right associativity).
Notation "m ;;; k" := (bind m (fun _ => k))
  (at level 61, right associativity).

(** [for x in l: body x] *)
Fixpoint for_each {A} (l : list A) (body : A -> M unit) : M unit :=
  match l with
  | [] => ret tt
  | x :: l' => body x ;;; for_each l' body
  end.

(** ** The catalog service: select, insert, update *)

Module Table.

Definition indexed {A} (l : list A) : list (nat * A) :=
  combine (seq 0 (length l)) l.

(** [select('*').<filter>.execute().data]: the matching rows with their
    keys, in table order *)
Definition select {A} (p : A -> bool) (l : list A) : list (nat * A) :=
  filter (fun r => p (snd r)) (indexed l).

(** [insert(row)]: the table after the insertion and the new row's key *)
Definition insert {A} (row : A) (l : list A) : list A * nat :=
  ((l ++ [row])%list, length l).

(** [update(f).eq('id', k)] *)
Fixpoint update {A} (k : nat) (f : A -> A) (l : list A) : list A :=
  match l with
  | [] => []
  | x :: l' =>
      match k with
      | O => f x :: l'
      | S k' => x :: update k' f l'
      end
  end.

End Table.

(** ** [transcript_processor.py] *)

Definition prompts (process_type : ProcessType) : string :=
  match process_type with
  | summary => "Summarize this YouTube video transcript in 3-5 paragraphs. Include key points and main takeaways. Transcript: {transcript}"
  | chapters => "Create chapter timestamps for this video transcript. Format each line as: [HH:MM:SS] Chapter Title. Transcript: {transcript}"
  | keywords => "Extract 10-15 important keywords/phrases from this transcript. Focus on technical terms, topics, and key concepts. Return as a comma-separated list. Transcript: {transcript}"
  | insights => "Analyze this transcript and provide: 1. Main topic and subtopics, 2. Key insights or learnings, 3. Actionable takeaways, 4. Related topics to explore. Format as JSON. Transcript: {transcript}"
  end.

Definition models (process_type : ProcessType) : string :=
  match process_type with
  | summary => "anthropic/claude-3-haiku"
  | chapters => "openai/gpt-4-turbo"
  | keywords => "anthropic/claude-3-haiku"
  | insights => "anthropic/claude-3-sonnet"
  end.

(** the keys of [self.prompts], in insertion order *)
Definition process_types : list ProcessType :=
  [summary; chapters; keywords; insights].

(** [prompt_template.format(transcript=t)]: the templates hold the one
    field [{transcript}] and no other brace *)
Definition format_transcript (prompt_template t : string) : string :=
  PyStr.replace "{transcript}" t prompt_template.

(** the character budget of a prompt: [transcript_text[:8000]] *)
Definition context_limit : nat := 8000.

(** the pattern of the title query: [f'%{title_part[:20]}%'] *)
Definition title_pattern (title_part : string) : string :=
  "%" ++ PyStr.take 20 title_part ++ "%".

(** [Path(transcript_path).stem.replace('_transcript', '').split('_', 1)] *)
Definition filename_parts (transcript_path : string) : list string :=
  PyStr.split1 "_" (PyStr.replace "_transcript" "" (PyPath.stem transcript_path)).

Definition find_video_by_filename (c : Catalog) (transcript_path : string)
  : option (nat * Video.t) :=
  match filename_parts transcript_path with
  | date_str :: title_part :: _ =>
      let result :=
        Table.select
          (fun v => Sql.ilike (title_pattern title_part) (Video.title v))
          (videos c) in
      match result with
      | r :: _ => Some r
      | [] => None
      end
  | _ => None
  end.

Definition insert_transcript (row : Transcript.t) : M nat :=
  fun w =>
    let (t, k) := Table.insert row (transcripts (catalog w)) in
    (Return k,
     with_catalog (fun c =>
       {| channels := channels c; videos := videos c;
          transcripts := t;
          processed_content := processed_content c |}) w).

Definition insert_processed_content (row : ProcessedContent.t) : M unit :=
  modify_catalog (fun c =>
    {| channels := channels c; videos := videos c;
       transcripts := transcripts c;
       processed_content := fst (Table.insert row (processed_content c)) |}).

Definition opt_str (o : option string) : Json :=
  match o with
  | Some s => JStr s
  | None => JNull
  end.

Section TranscriptProcessor.

Variable E : Env.

(** the call to the inference service, recorded in the world *)
Definition chat_completions_create (model prompt : string) : M Completion :=
  fun w =>
    let w' := {| catalog := catalog w;
                 llm_requests := (llm_requests w ++ [(model, prompt)])%list;
                 ydl_downloads := ydl_downloads w |} in
    match create_completion E model prompt with
    | Some r => (Return r, w')
    | None => (Raise APIError, w')
    end.

(** the content parsed by processing type *)
Definition parse_content (process_type : ProcessType) (content : option string)
  : M Json :=
  match process_type with
  | keywords =>
      match content with
      | Some c =>
          ret (JObj [("keywords",
                      JArr (map (fun k => JStr (PyStr.strip k))
                                (PyStr.split "," c)))])
      | None => raise AttributeError
      end
  | insights =>
      match content with
      | Some c =>
          match json_loads E c with
          | Some j => ret j
          | None => ret (JObj [("raw", JStr c)])
          end
      | None => ret (JObj [("raw", JNull)])
      end
  | _ => ret (JObj [("content", opt_str content)])
  end.

(** the body of the [try] of one derivation task *)
Definition derive (transcript_id : nat) (transcript_text : string)
    (process_type : ProcessType) : M unit :=
  let prompt :=
    format_transcript (prompts process_type)
                      (PyStr.take context_limit transcript_text) in
  response <- chat_completions_create (models process_type) prompt ;;
  content <- match choices response with
             | m :: _ => ret m
             | [] => raise IndexError
             end ;;
  content_json <- parse_content process_type content ;;
  insert_processed_content
    {| ProcessedContent.transcript_id := transcript_id;
       ProcessedContent.processing_type := process_type;
       ProcessedContent.content := content_json;
       ProcessedContent.model_used := models process_type;
       ProcessedContent.tokens_used := total_tokens response;
       ProcessedContent.processing_time_ms := elapsed_ms E process_type |}.

Definition process_with_ai (transcript_id : nat) (transcript_text : string)
  : M unit :=
  for_each process_types (fun process_type =>
    try_except (derive transcript_id transcript_text process_type)
               (fun _ => ret tt)).

Definition open_read (path : string) : M string :=
  match read_text E path with
  | Some s => ret s
  | None => raise OSError
  end.

(** the body of the [try] of [process_transcript] *)
Definition process_transcript_try (transcript_path : string) : M unit :=
  transcript_text <- open_read transcript_path ;;
  c <- get_catalog ;;
  match find_video_by_filename c transcript_path with
  | None => ret tt
  | Some (video_key, video) =>
      transcript_id <-
        insert_transcript
          {| Transcript.video_id := video_key;
             Transcript.raw_transcript := transcript_text;
             Transcript.transcript_format := "txt";
             Transcript.word_count := PyStr.word_count transcript_text;
             Transcript.language := "en";
             Transcript.transcribed_at := now_isoformat E |} ;;
      process_with_ai transcript_id transcript_text
  end.

Definition process_transcript (transcript_path : string) : M unit :=
  try_except (process_transcript_try transcript_path) (fun _ => ret tt).

(** [Path(watched_folder).rglob('*_transcript.txt')] *)
Definition rglob_transcripts : list string :=
  filter (fun p => PyStr.endswith "_transcript.txt" (PyPath.name p))
         (watched_entries E).

Definition scan_existing_transcripts : M unit :=
  for_each rglob_transcripts (fun transcript_file =>
    c <- get_catalog ;;
    match find_video_by_filename c transcript_file with
    | Some (video_key, video) =>
        let existing :=
          Table.select (fun t => Nat.eqb (Transcript.video_id t) video_key)
                       (transcripts c) in
        match existing with
        | [] => process_transcript transcript_file
        | _ :: _ => ret tt
        end
    | None => ret tt
    end).

(** [TranscriptHandler.on_created] *)
Definition on_created (event : FileEvent) : M unit :=
  if negb (is_directory event)
     && PyStr.endswith "_transcript.txt" (src_path event)
  then process_transcript (src_path event)
  else ret tt.

End TranscriptProcessor.

(** ** [youtube_downloader.py] *)

(** [l[:n]] for a Python integer [n] *)
Definition py_slice_to {A} (n : Z) (l : list A) : list A :=
  if (0 <=? n)%Z then firstn (Z.to_nat n) l
  else firstn (length l - Z.to_nat (- n)) l.

(** [d.get(key, default)]: the value of a key that is present, whatever
    it is, and [default] for an absent key *)
Definition get_or {A} (o : option A) (default : A) : A :=
  match o with
  | Some a => a
  | None => default
  end.

Definition set_videos (f : list Video.t -> list Video.t) : M unit :=
  modify_catalog (fun c =>
    {| channels := channels c; videos := f (videos c);
       transcripts := transcripts c;
       processed_content := processed_content c |}).

(** [table('videos').insert(video_data).execute()]: the row is sent as
    JSON, and [json.dumps] raises [TypeError] on the [datetime.date] of a
    parsed upload date *)
Definition insert_video (row : Video.t) : M nat :=
  match Video.upload_date row with
  | Some _ => raise TypeError
  | None =>
      c <- get_catalog ;;
      set_videos (fun l => fst (Table.insert row l)) ;;;
      ret (snd (Table.insert row (videos c)))
  end.

Definition update_video (k : nat) (f : Video.t -> Video.t) : M unit :=
  set_videos (Table.update k f).

(** [upsert(row, on_conflict='channel_id')] *)
Definition upsert_channel (row : Channel.t) : M unit :=
  modify_catalog (fun c =>
    let same r := String.eqb (Channel.channel_id r) (Channel.channel_id row) in
    {| channels :=
         if existsb same (channels c)
         then map (fun r => if same r then row else r) (channels c)
         else fst (Table.insert row (channels c));
       videos := videos c;
       transcripts := transcripts c;
       processed_content := processed_content c |}).

Definition watch_url (video_id : string) : string :=
  "https://www.youtube.com/watch?v=" ++ video_id.

Definition mark_completed (downloaded_at file_path : string) (v : Video.t)
  : Video.t :=
  {| Video.channel_id := Video.channel_id v;
     Video.video_id := Video.video_id v;
     Video.title := Video.title v;
     Video.description := Video.description v;
     Video.duration := Video.duration v;
     Video.upload_date := Video.upload_date v;
     Video.thumbnail_url := Video.thumbnail_url v;
     Video.video_url := Video.video_url v;
     Video.download_status := completed;
     Video.downloaded_at := Some downloaded_at;
     Video.file_path := Some file_path |}.

Definition mark_failed (v : Video.t) : Video.t :=
  {| Video.channel_id := Video.channel_id v;
     Video.video_id := Video.video_id v;
     Video.title := Video.title v;
     Video.description := Video.description v;
     Video.duration := Video.duration v;
     Video.upload_date := Video.upload_date v;
     Video.thumbnail_url := Video.thumbnail_url v;
     Video.video_url := Video.video_url v;
     Video.download_status := failed;
     Video.downloaded_at := Video.downloaded_at v;
     Video.file_path := Video.file_path v |}.

Section YouTubeDownloader.

Variable E : Env.

(** [ydl.download([url])], recorded in the world *)
Definition ydl_download (url : string) : M unit :=
  fun w =>
    let w' := {| catalog := catalog w;
                 llm_requests := llm_requests w;
                 ydl_downloads := (ydl_downloads w ++ [url])%list |} in
    if download E url then (Return tt, w') else (Raise DownloadError, w').

Definition sync_channels : M unit :=
  for_each (channel_list E) (fun channel_id =>
    if String.eqb (PyStr.strip channel_id) "" then ret tt
    else
      let channel_url := "https://www.youtube.com/channel/" ++ channel_id in
      try_except
        (match extract_uploader E channel_url with
         | None => raise DownloadError
         | Some uploader =>
             upsert_channel
               {| Channel.channel_id := channel_id;
                  Channel.channel_name := get_or uploader (Some channel_id);
                  Channel.channel_url := channel_url;
                  Channel.is_active := true |}
         end)
        (fun _ => ret tt)).

(** the [upload_date] column: parsed when the entry has a non-empty one *)
Definition parse_upload_date (e : Entry.t) : M (option Date) :=
  match Entry.upload_date e with
  | None => ret None
  | Some s =>
      if String.eqb s "" then ret None
      else match strptime_ymd E s with
           | Some d => ret (Some d)
           | None => raise ValueError
           end
  end.

Definition video_data (channel_db_id : nat) (e : Entry.t)
    (upload_date : option Date) : Video.t :=
  {| Video.channel_id := channel_db_id;
     Video.video_id := Entry.id e;
     Video.title := get_or (Entry.title e) "";
     Video.description := get_or (Entry.description e) "";
     Video.duration := get_or (Entry.duration e) 0%Z;
     Video.upload_date := upload_date;
     Video.thumbnail_url := get_or (Entry.thumbnail e) "";
     Video.video_url := watch_url (Entry.id e);
     Video.download_status := downloading;
     Video.downloaded_at := None;
     Video.file_path := None |}.

Definition resolved_file_path (e : Entry.t) : string :=
  PyPath.join (watched_folder E)
    (get_or (Entry.channel e) "unknown" ++ "/"
     ++ get_or (Entry.upload_date e) "" ++ "_"
     ++ get_or (Entry.title e) "" ++ ".mp4").

(** the inner [try] of one entry: the number of videos processed after it *)
Definition download_entry (video_db_id : nat) (e : Entry.t)
    (videos_processed : Z) : M Z :=
  try_except
    (match Entry.title e with
     | None => raise KeyError
     | Some _ => ret tt
     end ;;;
     ydl_download (watch_url (Entry.id e)) ;;;
     update_video video_db_id
       (mark_completed (now_isoformat E) (resolved_file_path e)) ;;;
     ret (videos_processed + 1)%Z)
    (fun _ =>
       update_video video_db_id mark_failed ;;;
       ret videos_processed).

(** the loop over the listed entries, with its counter *)
Fixpoint download_entries (channel_db_id : nat) (entries : list Entry.t)
    (videos_processed : Z) : M Z :=
  match entries with
  | [] => ret videos_processed
  | e :: rest =>
      if (max_videos E <=? videos_processed)%Z then ret videos_processed
      else
        c <- get_catalog ;;
        let existing :=
          Table.select (fun v => String.eqb (Video.video_id v) (Entry.id e))
                       (videos c) in
        match existing with
        | _ :: _ => download_entries channel_db_id rest videos_processed
        | [] =>
            upload_date <- parse_upload_date e ;;
            video_db_id <-
              insert_video (video_data channel_db_id e upload_date) ;;
            n <- download_entry video_db_id e videos_processed ;;
            download_entries channel_db_id rest n
        end
  end.

Definition download_channel_videos (channel_id : string) : M unit :=
  let channel_url :=
    "https://www.youtube.com/channel/" ++ channel_id ++ "/videos" in
  try_except
    (match extract_info E channel_url with
     | None => raise DownloadError
     | Some entries =>
         c <- get_catalog ;;
         match Table.select
                 (fun r => String.eqb (Channel.channel_id r) channel_id)
                 (channels c) with
         | [(channel_db_id, _)] =>
             download_entries channel_db_id
               (py_slice_to (max_videos E) entries) 0%Z ;;;
             ret tt
         | _ => raise APIError
         end
     end)
    (fun _ => ret tt).

(** [YouTubeDownloader.run] *)
Definition run : M unit :=
  sync_channels ;;;
  c <- get_catalog ;;
  for_each (Table.select Channel.is_active (channels c)) (fun r =>
    download_channel_videos (Channel.channel_id (snd r))).

End YouTubeDownloader.

(** ** Vocabulary of the properties *)





(** * Properties *)

(** ** Strings and paths *)

Lemma append_empty_r s : s ++ "" = s.
Proof. induction s as [|a s IH]; simpl; congruence. Qed.

Lemma append_assoc s t u : (s ++ t) ++ u = s ++ t ++ u.
Proof. induction s as [|a s IH]; simpl; congruence. Qed.







(** ** [ILIKE] *)





















(** The pattern of the title query never ends in an escape character
    with nothing after it. *)
Lemma closed_percent p : Sql.closed (p ++ "%") = true.
Proof.
  assert (G : forall n q, String.length q <= n ->
             Sql.closed (q ++ "%") = true).
  { induction n as [|n IH]; intros [|a q] Hn; simpl in Hn;
      try reflexivity; try lia.
    change (String a q ++ "%") with (String a (q ++ "%")).
    cbn [Sql.closed].
    destruct (Ascii.eqb a Sql.backslash); [|apply IH; lia].
    destruct q as [|b q]; [reflexivity|].
    change (String b q ++ "%") with (String b (q ++ "%")).
    apply IH; simpl in Hn; lia. }
  apply (G (String.length p) p); auto.
Qed.

Lemma title_pattern_closed title_part :
  Sql.closed (title_pattern title_part) = true.
Proof. apply (closed_percent (String Sql.percent _)). Qed.

(** ** Tables *)

Lemma select_from_nil {A} (p : A -> bool) (l : list A) n :
  (forall x, In x l -> p x = false) ->
  filter (fun r : nat * A => p (snd r)) (combine (seq n (length l)) l) = [].
Proof.
  revert n; induction l as [|x l IH]; intros n H; simpl; auto.
  rewrite (H x) by (now left).
  apply IH; intros; apply H; now right.
Qed.



Lemma select_nil {A} (p : A -> bool) (l : list A) :
  (forall x, In x l -> p x = false) -> Table.select p l = [].
Proof. apply select_from_nil. Qed.

Lemma select_from_In {A} (p : A -> bool) (l : list A) n k x :
  In (k, x)
     (filter (fun r : nat * A => p (snd r)) (combine (seq n (length l)) l)) ->
  n <= k /\ nth_error l (k - n) = Some x /\ p x = true.
Proof.
  revert n; induction l as [|y l IH]; intros n; simpl; [tauto|].
  destruct (p y) eqn:Hy; simpl.
  - intros [H|H].
    + inversion H; subst; rewrite Nat.sub_diag; auto.
    + apply IH in H as (Hle & Hn & Hp).
      replace (k - n) with (S (k - S n)) by lia; repeat split; auto; lia.
  - intros H; apply IH in H as (Hle & Hn & Hp).
    replace (k - n) with (S (k - S n)) by lia; repeat split; auto; lia.
Qed.

Lemma select_In {A} (p : A -> bool) (l : list A) k x :
  In (k, x) (Table.select p l) -> nth_error l k = Some x /\ p x = true.
Proof.
  intros H; apply select_from_In in H as (_ & H & Hp).
  now rewrite Nat.sub_0_r in H.
Qed.

Lemma select_nonempty {A} (p : A -> bool) (l : list A) x :
  In x l -> p x = true -> Table.select p l <> [].
Proof.
  intros Hin Hp.
  assert (G : forall n,
    filter (fun r : nat * A => p (snd r)) (combine (seq n (length l)) l)
    <> []).
  { induction l as [|y l IH]; intros n; simpl; [destruct Hin|].
    destruct Hin as [->|Hin].
    - rewrite Hp; discriminate.
    - destruct (p y); [discriminate | now apply IH]. }
  apply G.
Qed.

Lemma select_empty_inv {A} (p : A -> bool) (l : list A) :
  Table.select p l = [] -> forall x, In x l -> p x = false.
Proof.
  intros H x Hin; destruct (p x) eqn:Hp; auto.
  now destruct (select_nonempty p l x Hin Hp).
Qed.

(** ** The transcript matcher *)

Definition intro_to_systems : Video.t :=
  {| Video.channel_id := 0;
     Video.video_id := "dQw4w9WgXcQ";
     Video.title := "Intro to Systems";
     Video.description := "";
     Video.duration := 0;
     Video.upload_date := None;
     Video.thumbnail_url := "";
     Video.video_url := watch_url "dQw4w9WgXcQ";
     Video.download_status := completed;
     Video.downloaded_at := None;
     Video.file_path := None |}.

Definition catalog_of_videos (l : list Video.t) : Catalog :=
  {| channels := []; videos := l; transcripts := [];
     processed_content := [] |}.

















(** ** The derivation tasks *)

Lemma context_limit_eq : context_limit = 8000.
Proof. reflexivity. Qed.

Arguments PyStr.take : simpl never.
Arguments format_transcript : simpl never.
Opaque context_limit.

(** the request of a derivation task *)
Definition request (transcript_text : string) (process_type : ProcessType)
  : string * string :=
  (models process_type,
   format_transcript (prompts process_type)
                     (PyStr.take context_limit transcript_text)).

(** [succeeds E tid text w pt]: the task of type [pt] does not raise *)
Definition succeeds (E : Env) (tid : nat) (text : string) (w : World)
    (pt : ProcessType) : bool :=
  match fst (derive E tid text pt w) with
  | Return _ => true
  | Raise _ => false
  end.

Section Derive.

Variable E : Env.
Variables (tid : nat) (text : string).

Lemma derive_cases pt w :
  llm_requests (snd (derive E tid text pt w))
    = (llm_requests w ++ [request text pt])%list
  /\ ydl_downloads (snd (derive E tid text pt w)) = ydl_downloads w
  /\ channels (catalog (snd (derive E tid text pt w))) = channels (catalog w)
  /\ videos (catalog (snd (derive E tid text pt w))) = videos (catalog w)
  /\ transcripts (catalog (snd (derive E tid text pt w)))
     = transcripts (catalog w)
  /\ ((exists e,
         (forall w', fst (derive E tid text pt w') = Raise e)
         /\ processed_content (catalog (snd (derive E tid text pt w)))
            = processed_content (catalog w))
      \/ (exists row,
         (forall w', fst (derive E tid text pt w') = Return tt)
         /\ processed_content (catalog (snd (derive E tid text pt w)))
            = (processed_content (catalog w) ++ [row])%list
         /\ ProcessedContent.transcript_id row = tid
         /\ ProcessedContent.processing_type row = pt)).
Proof.
  unfold derive, request, bind, chat_completions_create.
  destruct (create_completion E (models pt) _) as [r|]; simpl.
  2:{ repeat split; left; eexists; split; reflexivity. }
  destruct (choices r) as [|m l]; simpl.
  { repeat split; left; eexists; split; reflexivity. }
  destruct pt; simpl;
    try (repeat split; right; eexists; repeat split; reflexivity).
  - destruct m as [c|]; simpl.
    + repeat split; right; eexists; repeat split; reflexivity.
    + repeat split; left; eexists; split; reflexivity.
  - destruct m as [c|]; simpl; [destruct (json_loads E c); simpl|];
      repeat split; right; eexists; repeat split; reflexivity.
Qed.

Lemma succeeds_world pt w w' :
  succeeds E tid text w pt = succeeds E tid text w' pt.
Proof.
  unfold succeeds.
  destruct (derive_cases pt w) as (_ & _ & _ & _ & _ & [(e & H & _)|(r & H & _)]);
    now rewrite (H w), (H w').
Qed.

(** one turn of the loop of [process_with_ai] *)
Definition attempt (pt : ProcessType) : M unit :=
  try_except (derive E tid text pt) (fun _ => ret tt).

Lemma attempt_spec pt w :
  fst (attempt pt w) = Return tt
  /\ llm_requests (snd (attempt pt w))
     = (llm_requests w ++ [request text pt])%list
  /\ ydl_downloads (snd (attempt pt w)) = ydl_downloads w
  /\ channels (catalog (snd (attempt pt w))) = channels (catalog w)
  /\ videos (catalog (snd (attempt pt w))) = videos (catalog w)
  /\ transcripts (catalog (snd (attempt pt w))) = transcripts (catalog w)
  /\ exists rows,
       processed_content (catalog (snd (attempt pt w)))
       = (processed_content (catalog w) ++ rows)%list
       /\ map ProcessedContent.processing_type rows
          = filter (succeeds E tid text w) [pt]
       /\ Forall (fun r => ProcessedContent.transcript_id r = tid) rows.
Proof.
  destruct (derive_cases pt w) as (Hl & Hy & Hc & Hv & Ht & Hp).
  unfold attempt, try_except, succeeds; simpl.
  destruct Hp as [(e & He & Hp)|(row & He & Hp & Hr1 & Hr2)];
    specialize (He w);
    destruct (derive E tid text pt w) as [[[]|e'] w1]; simpl in *;
    try discriminate; repeat split; auto.
  - exists []; rewrite Hp, app_nil_r; auto.
  - exists [row]; rewrite Hp; simpl; rewrite Hr2; auto.
Qed.

Lemma attempts_spec l : forall w,
  fst (for_each l attempt w) = Return tt
  /\ llm_requests (snd (for_each l attempt w))
     = (llm_requests w ++ map (request text) l)%list
  /\ ydl_downloads (snd (for_each l attempt w)) = ydl_downloads w
  /\ channels (catalog (snd (for_each l attempt w))) = channels (catalog w)
  /\ videos (catalog (snd (for_each l attempt w))) = videos (catalog w)
  /\ transcripts (catalog (snd (for_each l attempt w)))
     = transcripts (catalog w)
  /\ exists rows,
       processed_content (catalog (snd (for_each l attempt w)))
       = (processed_content (catalog w) ++ rows)%list
       /\ map ProcessedContent.processing_type rows
          = filter (succeeds E tid text w) l
       /\ Forall (fun r => ProcessedContent.transcript_id r = tid) rows.
Proof.
  induction l as [|pt l IH]; intros w.
  - simpl; rewrite app_nil_r; repeat split; auto.
    exists []; rewrite app_nil_r; auto.
  - destruct (attempt_spec pt w)
      as (H0 & Hl & Hy & Hc & Hv & Ht & rows1 & Hp & Hm & Hf).
    change (for_each (pt :: l) attempt w)
      with (bind (attempt pt) (fun _ => for_each l attempt) w).
    unfold bind.
    destruct (attempt pt w) as [[[]|e] w1]; simpl in *; try discriminate.
    destruct (IH w1) as (I0 & Il & Iy & Ic & Iv & It & rows2 & Ip & Im & If).
    rewrite Il, Iy, Ic, Iv, It, Hl, Hy, Hc, Hv, Ht, <- app_assoc.
    repeat split; auto.
    exists (rows1 ++ rows2)%list.
    rewrite Ip, Hp, <- app_assoc, map_app, Hm, Im.
    repeat split; auto using Forall_app.
    + rewrite (filter_ext _ _ (fun pt => succeeds_world pt w1 w)).
      now destruct (succeeds E tid text w pt).
    + apply Forall_app; auto.
Qed.

End Derive.

(** the text of a prompt before the transcript *)
Definition prompt_prefix (process_type : ProcessType) : string :=
  match process_type with
  | summary => "Summarize this YouTube video transcript in 3-5 paragraphs. Include key points and main takeaways. Transcript: "
  | chapters => "Create chapter timestamps for this video transcript. Format each line as: [HH:MM:SS] Chapter Title. Transcript: "
  | keywords => "Extract 10-15 important keywords/phrases from this transcript. Focus on technical terms, topics, and key concepts. Return as a comma-separated list. Transcript: "
  | insights => "Analyze this transcript and provide: 1. Main topic and subtopics, 2. Key insights or learnings, 3. Actionable takeaways, 4. Related topics to explore. Format as JSON. Transcript: "
  end.

Lemma prompts_prefix pt : prompts pt = prompt_prefix pt ++ "{transcript}".
Proof. destruct pt; reflexivity. Qed.

Lemma format_transcript_prompts pt t :
  format_transcript (prompts pt) t = prompt_prefix pt ++ t.
Proof.
  rewrite <- (append_empty_r t) at 2.
  destruct pt; reflexivity.
Qed.

Lemma length_take n s :
  String.length (PyStr.take n s) = Nat.min n (String.length s).
Proof.
  revert s; induction n as [|n IH]; intros [|a s]; auto.
  change (S (String.length (PyStr.take n s))
          = S (Nat.min n (String.length s))).
  now rewrite IH.
Qed.

Lemma take_prefix n s : exists rest, s = PyStr.take n s ++ rest.
Proof.
  revert s; induction n as [|n IH]; intros s.
  - exists s; reflexivity.
  - destruct s as [|a s]; [exists ""; reflexivity|].
    destruct (IH s) as [rest Hr]; exists rest.
    change (String a s = String a (PyStr.take n s ++ rest)); congruence.
Qed.

Definition process_type_eqb (a b : ProcessType) : bool :=
  match a, b with
  | summary, summary | chapters, chapters
  | keywords, keywords | insights, insights => true
  | _, _ => false
  end.

Lemma process_type_eqb_eq a b : process_type_eqb a b = true <-> a = b.
Proof. destruct a, b; simpl; split; congruence. Qed.

(** an inference service that answers every model but the one of the
    chapters task *)
Definition env_chapters_down : Env :=
  {| read_text := fun _ => Some "so today we look at page tables";
     watched_entries := [];
     create_completion := fun model _ =>
       if String.eqb model "openai/gpt-4-turbo" then None
       else Some {| choices := [Some "paging, TLB , caches"];
                    total_tokens := Some 42%Z |};
     extract_info := fun _ => None;
     extract_uploader := fun _ => None;
     download := fun _ => true;
     strptime_ymd := fun _ => None;
     json_loads := fun _ => None;
     now_isoformat := "2024-01-02T03:04:05";
     elapsed_ms := fun _ => 250%Z;
     channel_list := [];
     watched_folder := "/watched";
     max_videos := 10 |}.

Definition world_of (c : Catalog) : World :=
  {| catalog := c; llm_requests := []; ydl_downloads := [] |}.

(** C3. When exactly one of the four derivation tasks raises, the loop
    returns normally and the rows it adds to the artifact table are those
    of the other three tasks, in the order of the task table, each for the
    same Transcript.  (Whether a task raises does not depend on the world
    it starts in, so it is stated at the world the loop starts in.) *)
Theorem fan_out_isolation E tid text w bad :
  (exists e, fst (derive E tid text bad w) = Raise e) ->
  (forall pt, pt <> bad -> fst (derive E tid text pt w) = Return tt) ->
  fst (process_with_ai E tid text w) = Return tt
  /\ exists rows,
       processed_content (catalog (snd (process_with_ai E tid text w)))
       = (processed_content (catalog w) ++ rows)%list
       /\ map ProcessedContent.processing_type rows
          = filter (fun pt => negb (process_type_eqb pt bad)) process_types
       /\ length rows = 3
       /\ Forall (fun r => ProcessedContent.transcript_id r = tid) rows.
Proof.
  intros [e Hbad] Hgood.
  destruct (attempts_spec E tid text process_types w)
    as (H0 & _ & _ & _ & _ & _ & rows & Hp & Hm & Hf).
  split; [exact H0|].
  exists rows.
  assert (Hs : forall pt,
             succeeds E tid text w pt = negb (process_type_eqb pt bad)).
  { intros pt; unfold succeeds.
    destruct (process_type_eqb pt bad) eqn:Hpt.
    - apply process_type_eqb_eq in Hpt; subst; now rewrite Hbad.
    - rewrite Hgood; auto.
      intros ->; now rewrite (proj2 (process_type_eqb_eq bad bad)) in Hpt. }
  rewrite (filter_ext _ _ Hs) in Hm.
  repeat split; auto.
  rewrite <- (length_map ProcessedContent.processing_type), Hm.
  destruct bad; reflexivity.
Qed.

Lemma fan_out_isolation_witness :
  map ProcessedContent.processing_type
      (processed_content
         (catalog
            (snd (process_with_ai env_chapters_down 0 "page tables"
                    (world_of (catalog_of_videos [intro_to_systems]))))))
  = [summary; keywords; insights].
Proof.
  destruct (fan_out_isolation env_chapters_down 0 "page tables"
              (world_of (catalog_of_videos [intro_to_systems])) chapters)
    as (_ & rows & Hp & Hm & _).
  - exists APIError; reflexivity.
  - intros pt Hpt; destruct pt; try reflexivity; now destruct Hpt.
  - rewrite Hp; exact Hm.
Defined.

Lemma for_each_app {A} (l1 l2 : list A) (body : A -> M unit) w :
  for_each (l1 ++ l2) body w
  = bind (for_each l1 body) (fun _ => for_each l2 body) w.
Proof.
  revert w; induction l1 as [|x l1 IH]; intros w; simpl.
  - reflexivity.
  - unfold bind in *.
    destruct (body x w) as [[[]|e] w1]; auto.
Qed.

(** C6. An insights response whose text the JSON parser rejects does not
    make the task raise: the task returns normally and the row it adds
    wraps the raw text; the whole loop returns normally and that row is
    the last of the artifact table. *)
Theorem insights_parsing_fallback E tid text w r c more :
  create_completion E (models insights)
    (format_transcript (prompts insights) (PyStr.take context_limit text))
    = Some r ->
  choices r = Some c :: more ->
  json_loads E c = None ->
  let row :=
    {| ProcessedContent.transcript_id := tid;
       ProcessedContent.processing_type := insights;
       ProcessedContent.content := JObj [("raw", JStr c)];
       ProcessedContent.model_used := models insights;
       ProcessedContent.tokens_used := total_tokens r;
       ProcessedContent.processing_time_ms := elapsed_ms E insights |} in
  (fst (derive E tid text insights w) = Return tt
   /\ processed_content (catalog (snd (derive E tid text insights w)))
      = (processed_content (catalog w) ++ [row])%list)
  /\ fst (process_with_ai E tid text w) = Return tt
  /\ exists rows,
       processed_content (catalog (snd (process_with_ai E tid text w)))
       = (processed_content (catalog w) ++ rows ++ [row])%list.
Proof.
  intros Hr Hc Hj row.
  assert (D : forall w0,
    fst (derive E tid text insights w0) = Return tt
    /\ processed_content (catalog (snd (derive E tid text insights w0)))
       = (processed_content (catalog w0) ++ [row])%list).
  { intros w0; unfold derive, bind, chat_completions_create.
    rewrite Hr; simpl; rewrite Hc; simpl; rewrite Hj.
    split; reflexivity. }
  split; [apply D|].
  destruct (attempts_spec E tid text process_types w) as (H0 & _).
  split; [exact H0|].
  change (process_with_ai E tid text)
    with (for_each ([summary; chapters; keywords] ++ [insights])%list
                   (attempt E tid text)).
  rewrite for_each_app; unfold bind.
  destruct (attempts_spec E tid text [summary; chapters; keywords] w)
    as (H1 & _ & _ & _ & _ & _ & rows & Hp & _).
  destruct (for_each [summary; chapters; keywords] (attempt E tid text) w)
    as [[[]|e] w1]; simpl in *; try discriminate.
  exists rows.
  destruct (D w1) as [D1 D2].
  unfold bind, attempt, try_except.
  destruct (derive E tid text insights w1) as [[[]|e] w2]; simpl in *;
    try discriminate.
  now rewrite D2, Hp, <- app_assoc.
Qed.


Lemma insights_parsing_fallback_witness :
  exists rows,
    map ProcessedContent.content
      (processed_content
         (catalog
            (snd (process_with_ai env_chapters_down 0 "page tables"
                    (world_of (catalog_of_videos [intro_to_systems]))))))
    = (rows ++ [JObj [("raw", JStr "paging, TLB , caches")]])%list.
Proof.
  destruct (insights_parsing_fallback env_chapters_down 0 "page tables"
              (world_of (catalog_of_videos [intro_to_systems]))
              {| choices := [Some "paging, TLB , caches"];
                 total_tokens := Some 42%Z |}
              "paging, TLB , caches" [])
    as (_ & _ & rows & Hp); try reflexivity.
  exists (map ProcessedContent.content rows).
  rewrite Hp; simpl; now rewrite map_app.
Defined.

(** ** [process_transcript] *)

Arguments process_with_ai : simpl never.

Definition transcript_row (E : Env) (video_key : nat) (text : string)
  : Transcript.t :=
  {| Transcript.video_id := video_key;
     Transcript.raw_transcript := text;
     Transcript.transcript_format := "txt";
     Transcript.word_count := PyStr.word_count text;
     Transcript.language := "en";
     Transcript.transcribed_at := now_isoformat E |}.

Lemma process_transcript_try_eq E path w :
  process_transcript_try E path w =
  match read_text E path with
  | None => (Raise OSError, w)
  | Some text =>
      match find_video_by_filename (catalog w) path with
      | None => (Return tt, w)
      | Some (key, _) =>
          process_with_ai E (length (transcripts (catalog w))) text
            (snd (insert_transcript (transcript_row E key text) w))
      end
  end.
Proof.
  unfold process_transcript_try, bind, open_read, get_catalog.
  destruct (read_text E path) as [text|]; [|reflexivity].
  cbn [ret].
  destruct (find_video_by_filename (catalog w) path) as [[key v]|];
    reflexivity.
Qed.

Lemma process_with_ai_spec E tid text w :
  fst (process_with_ai E tid text w) = Return tt
  /\ llm_requests (snd (process_with_ai E tid text w))
     = (llm_requests w ++ map (request text) process_types)%list
  /\ ydl_downloads (snd (process_with_ai E tid text w)) = ydl_downloads w
  /\ channels (catalog (snd (process_with_ai E tid text w)))
     = channels (catalog w)
  /\ videos (catalog (snd (process_with_ai E tid text w)))
     = videos (catalog w)
  /\ transcripts (catalog (snd (process_with_ai E tid text w)))
     = transcripts (catalog w)
  /\ exists rows,
       processed_content (catalog (snd (process_with_ai E tid text w)))
       = (processed_content (catalog w) ++ rows)%list
       /\ map ProcessedContent.processing_type rows
          = filter (succeeds E tid text w) process_types
       /\ Forall (fun r => ProcessedContent.transcript_id r = tid) rows.
Proof. apply (attempts_spec E tid text process_types w). Qed.


(** What a call of [process_transcript] does to the world. *)
Lemma process_transcript_spec E path w :
  fst (process_transcript E path w) = Return tt
  /\ match read_text E path, find_video_by_filename (catalog w) path with
     | Some text, Some (key, _) =>
         let w' := snd (process_transcript E path w) in
         let tid := length (transcripts (catalog w)) in
         transcripts (catalog w')
         = (transcripts (catalog w) ++ [transcript_row E key text])%list
         /\ channels (catalog w') = channels (catalog w)
         /\ videos (catalog w') = videos (catalog w)
         /\ llm_requests w'
            = (llm_requests w ++ map (request text) process_types)%list
         /\ ydl_downloads w' = ydl_downloads w
         /\ exists rows,
              processed_content (catalog w')
              = (processed_content (catalog w) ++ rows)%list
              /\ Forall (fun r => ProcessedContent.transcript_id r = tid) rows
     | _, _ => snd (process_transcript E path w) = w
     end.
Proof.
  unfold process_transcript, try_except.
  rewrite process_transcript_try_eq.
  destruct (read_text E path) as [text|]; [|split; reflexivity].
  destruct (find_video_by_filename (catalog w) path) as [[key v]|];
    [|split; reflexivity].
  set (w1 := snd (insert_transcript (transcript_row E key text) w)).
  destruct (process_with_ai_spec E (length (transcripts (catalog w))) text w1)
    as (H0 & Hl & Hy & Hc & Hv & Ht & rows & Hp & _ & Hf).
  destruct (process_with_ai E (length (transcripts (catalog w))) text w1)
    as [[[]|e] w2]; simpl in *; try discriminate.
  split; [reflexivity|].
  rewrite Ht, Hc, Hv, Hl, Hy; repeat split.
  exists rows; split; [exact Hp | exact Hf].
Qed.

(** an environment whose files cannot be read *)
Definition env_unreadable : Env :=
  {| read_text := fun _ => None;
     watched_entries := [];
     create_completion := create_completion env_chapters_down;
     extract_info := fun _ => None;
     extract_uploader := fun _ => None;
     download := fun _ => true;
     strptime_ymd := fun _ => None;
     json_loads := fun _ => None;
     now_isoformat := "2024-01-02T03:04:05";
     elapsed_ms := fun _ => 250%Z;
     channel_list := [];
     watched_folder := "/watched";
     max_videos := 10 |}.

(** C10. [process_transcript] never hands an exception to its caller; when
    the artifact cannot be read the body of its [try] raises, the handler
    swallows the exception and the world is as before; when no Video is
    matched the world is as before too.  In both cases no Transcript and
    no Artifact row is inserted. *)
Theorem process_transcript_never_raises :
  (forall E path w, fst (process_transcript E path w) = Return tt)
  /\ (forall E path w,
      read_text E path = None ->
      fst (process_transcript_try E path w) = Raise OSError
      /\ snd (process_transcript E path w) = w)
  /\ (forall E path w,
      find_video_by_filename (catalog w) path = None ->
      snd (process_transcript E path w) = w).
Proof.
  repeat split.
  - intros E path w; apply process_transcript_spec.
  - rewrite process_transcript_try_eq; now rewrite H.
  - destruct (process_transcript_spec E path w) as [_ Hs].
    now rewrite H in Hs.
  - intros E path w H.
    destruct (process_transcript_spec E path w) as [_ Hs].
    rewrite H in Hs; now destruct (read_text E path).
Qed.

Lemma process_transcript_never_raises_witness :
  process_transcript env_unreadable
    "/watched/Chan/20240101_Intro_to_Systems_transcript.txt"
    (world_of (catalog_of_videos [intro_to_systems]))
  = (Return tt, world_of (catalog_of_videos [intro_to_systems])).
Proof.
  pose proof (proj1 process_transcript_never_raises env_unreadable
    "/watched/Chan/20240101_Intro_to_Systems_transcript.txt"
    (world_of (catalog_of_videos [intro_to_systems]))) as H1.
  destruct (proj1 (proj2 process_transcript_never_raises) env_unreadable
    "/watched/Chan/20240101_Intro_to_Systems_transcript.txt"
    (world_of (catalog_of_videos [intro_to_systems])) eq_refl) as [_ H2].
  destruct (process_transcript _ _ _) as [o w']; simpl in *.
  now rewrite H1, H2.
Defined.

Lemma request_prompt text pt :
  request text pt
  = (models pt, prompt_prefix pt ++ PyStr.take context_limit text).
Proof. unfold request; now rewrite format_transcript_prompts. Qed.

(** C4. For a transcript longer than 8,000 characters the text put into
    each of the four prompts sent to the inference service is its first
    8,000 characters, after the fixed text of the template, and the
    Transcript row inserted into the catalog holds the whole text. *)
Theorem prompt_truncation_full_retention E path text key v w :
  read_text E path = Some text ->
  find_video_by_filename (catalog w) path = Some (key, v) ->
  context_limit < String.length text ->
  let w' := snd (process_transcript E path w) in
  llm_requests w'
  = (llm_requests w
     ++ map (fun pt =>
               (models pt,
                (prompt_prefix pt ++ PyStr.take context_limit text)%string))
            process_types)%list
  /\ String.length (PyStr.take context_limit text) = context_limit
  /\ context_limit = 8000
  /\ (exists rest, text = PyStr.take context_limit text ++ rest)
  /\ exists row,
       transcripts (catalog w') = (transcripts (catalog w) ++ [row])%list
       /\ Transcript.raw_transcript row = text.
Proof.
  intros Hr Hf Hlen w'.
  destruct (process_transcript_spec E path w) as [_ Hs].
  rewrite Hr, Hf in Hs.
  destruct Hs as (Ht & _ & _ & Hl & _).
  split; [|split; [|split; [|split]]].
  - subst w'; rewrite Hl; f_equal.
    apply map_ext; intros pt; apply request_prompt.
  - rewrite length_take; lia.
  - apply context_limit_eq.
  - apply take_prefix.
  - exists (transcript_row E key text); split; [exact Ht | reflexivity].
Qed.

(** a transcript of 50,000 characters *)
Definition long_transcript : string :=
  string_of_list_ascii (repeat "a"%char 50000).

Definition env_long_transcript : Env :=
  {| read_text := fun _ => Some long_transcript;
     watched_entries := [];
     create_completion := create_completion env_chapters_down;
     extract_info := fun _ => None;
     extract_uploader := fun _ => None;
     download := fun _ => true;
     strptime_ymd := fun _ => None;
     json_loads := fun _ => None;
     now_isoformat := "2024-01-02T03:04:05";
     elapsed_ms := fun _ => 250%Z;
     channel_list := [];
     watched_folder := "/watched";
     max_videos := 10 |}.

Lemma prompt_truncation_full_retention_witness :
  String.length (PyStr.take context_limit long_transcript) = context_limit
  /\ exists row,
       transcripts
         (catalog
            (snd (process_transcript env_long_transcript
                    "/watched/Chan/20240101_Intro_to_Systems_transcript.txt"
                    (world_of (catalog_of_videos [intro_to_systems])))))
       = [row]
       /\ Transcript.raw_transcript row = long_transcript.
Proof.
  destruct (prompt_truncation_full_retention env_long_transcript
              "/watched/Chan/20240101_Intro_to_Systems_transcript.txt"
              long_transcript 0 intro_to_systems
              (world_of (catalog_of_videos [intro_to_systems])))
    as (_ & Hlen & _ & _ & Hrow).
  - reflexivity.
  - reflexivity.
  - apply Nat.ltb_lt; vm_compute; reflexivity.
  - split; [exact Hlen | exact Hrow].
Defined.

(** ** The watch loop *)

Definition artifact_path : string :=
  "/watched/Chan/20240101_Intro_to_Systems_transcript.txt".

(** the watched folder holds one artifact, deposited before start-up *)
Definition env_watch : Env :=
  {| read_text := fun _ => Some "so today we look at page tables";
     watched_entries := ["/watched/Chan"; artifact_path];
     create_completion := create_completion env_chapters_down;
     extract_info := fun _ => None;
     extract_uploader := fun _ => None;
     download := fun _ => true;
     strptime_ymd := fun _ => None;
     json_loads := fun _ => None;
     now_isoformat := "2024-01-02T03:04:05";
     elapsed_ms := fun _ => 250%Z;
     channel_list := [];
     watched_folder := "/watched";
     max_videos := 10 |}.

(** C1, at the failing input.  The start-up scan processes the artifact
    once; a creation event that the live subscription then delivers for
    the same artifact goes through [on_created], which has no existence
    check, and a second Transcript row is inserted for the same Video. *)
Theorem duplicate_event_inserts_second_transcript :
  let w0 := world_of (catalog_of_videos [intro_to_systems]) in
  let w1 := snd (scan_existing_transcripts env_watch w0) in
  let w2 :=
    snd (on_created env_watch
           {| is_directory := false; src_path := artifact_path |} w1) in
  map Transcript.video_id (transcripts (catalog w1)) = [0]
  /\ map Transcript.video_id (transcripts (catalog w2)) = [0; 0]
  /\ map ProcessedContent.transcript_id (processed_content (catalog w2))
     = [0; 0; 0; 1; 1; 1].
Proof. vm_compute; repeat split. Qed.

(** ** Computations that keep a preorder on worlds *)

Section Keeps.

Variable R : World -> World -> Prop.
Hypothesis R_refl : forall w, R w w.
Hypothesis R_trans : forall w1 w2 w3, R w1 w2 -> R w2 w3 -> R w1 w3.

Definition keeps {A} (m : M A) : Prop := forall w, R w (snd (m w)).

Lemma keeps_ret {A} (a : A) : keeps (ret a).
Proof. intros w; apply R_refl. Qed.

Lemma keeps_raise {A} e : keeps (@raise A e).
Proof. intros w; apply R_refl. Qed.

Lemma keeps_bind {A B} (m : M A) (k : A -> M B) :
  keeps m -> (forall a, keeps (k a)) -> keeps (bind m k).
Proof.
  intros Hm Hk w; unfold bind.
  specialize (Hm w); destruct (m w) as [[a|e] w1]; simpl in *; auto.
  eapply R_trans; [exact Hm | apply Hk].
Qed.

Lemma keeps_try_except {A} (m : M A) h :
  keeps m -> (forall e, keeps (h e)) -> keeps (try_except m h).
Proof.
  intros Hm Hh w; unfold try_except.
  specialize (Hm w); destruct (m w) as [[a|e] w1]; simpl in *; auto.
  eapply R_trans; [exact Hm | apply Hh].
Qed.

Lemma keeps_for_each {A} (l : list A) body :
  (forall x, keeps (body x)) -> keeps (for_each l body).
Proof.
  intros Hb; induction l as [|x l IH]; simpl.
  - apply keeps_ret.
  - apply keeps_bind; auto.
Qed.

End Keeps.

(** ** The acquisition engine *)

Definition video_ids (w : World) : list string :=
  map Video.video_id (videos (catalog w)).

(** [acquired w w']: from [w] to [w'] the video table has kept its rows'
    external identifiers and gained rows for identifiers that were not
    catalogued, one row each; transcripts, artifacts and the requests to
    the inference service are the same. *)
Definition acquired (w w' : World) : Prop :=
  (exists new,
      video_ids w' = (video_ids w ++ new)%list
      /\ NoDup new
      /\ forall x, In x new -> ~ In x (video_ids w))
  /\ transcripts (catalog w') = transcripts (catalog w)
  /\ processed_content (catalog w') = processed_content (catalog w)
  /\ llm_requests w' = llm_requests w.

Lemma no_new_ids (ids : list string) :
  exists new : list string,
    ids = (ids ++ new)%list /\ NoDup new /\ forall x, In x new -> ~ In x ids.
Proof.
  exists []; rewrite app_nil_r; split; [reflexivity|].
  split; [constructor | intros x []].
Qed.

Lemma acquired_refl w : acquired w w.
Proof.
  split; [apply no_new_ids | auto].
Qed.

Lemma acquired_trans w1 w2 w3 :
  acquired w1 w2 -> acquired w2 w3 -> acquired w1 w3.
Proof.
  intros ((n1 & E1 & N1 & D1) & T1 & P1 & L1)
         ((n2 & E2 & N2 & D2) & T2 & P2 & L2).
  split; [|repeat split; congruence].
  exists (n1 ++ n2)%list; split; [|split].
  - now rewrite E2, E1, app_assoc.
  - apply NoDup_app; auto.
    intros x H1 H2; apply (D2 x H2); rewrite E1; apply in_or_app; now right.
  - intros x Hx Hin; apply in_app_or in Hx as [Hx|Hx].
    + now apply (D1 x).
    + apply (D2 x Hx); rewrite E1; apply in_or_app; now left.
Qed.

Lemma acquired_same_ids w w' :
  video_ids w' = video_ids w ->
  transcripts (catalog w') = transcripts (catalog w) ->
  processed_content (catalog w') = processed_content (catalog w) ->
  llm_requests w' = llm_requests w ->
  acquired w w'.
Proof.
  intros Hi Ht Hp Hl; split; [|auto].
  rewrite Hi; apply no_new_ids.
Qed.

Lemma map_update {A B} (g : A -> B) (f : A -> A) k (l : list A) :
  (forall x, g (f x) = g x) -> map g (Table.update k f l) = map g l.
Proof.
  intros H; revert k; induction l as [|x l IH]; intros [|k]; simpl;
    auto; now rewrite ?H, ?IH.
Qed.

Lemma length_update {A} (f : A -> A) k (l : list A) :
  length (Table.update k f l) = length l.
Proof.
  revert k; induction l as [|x l IH]; intros [|k]; simpl; auto.
Qed.

Lemma update_last {A} (f : A -> A) (l : list A) x :
  Table.update (length l) f (l ++ [x]) = (l ++ [f x])%list.
Proof. induction l as [|y l IH]; simpl; congruence. Qed.

Lemma update_video_acquired k f :
  (forall v, Video.video_id (f v) = Video.video_id v) ->
  keeps acquired (update_video k f).
Proof.
  intros Hf w; apply acquired_same_ids; auto.
  unfold video_ids; simpl; now apply map_update.
Qed.

Section Acquisition.

Variable E : Env.

Lemma ydl_download_acquired url : keeps acquired (ydl_download E url).
Proof.
  intros w; unfold ydl_download.
  destruct (download E url); now apply acquired_same_ids.
Qed.

Lemma download_entry_acquired k e n :
  keeps acquired (download_entry E k e n).
Proof.
  unfold download_entry.
  apply (keeps_try_except acquired acquired_trans).
  - apply (keeps_bind acquired acquired_trans).
    { destruct (Entry.title e);
        [apply keeps_ret | apply keeps_raise]; exact acquired_refl. }
    intros _; apply (keeps_bind acquired acquired_trans).
    { apply ydl_download_acquired. }
    intros _; apply (keeps_bind acquired acquired_trans).
    { now apply update_video_acquired. }
    intros _; apply keeps_ret; exact acquired_refl.
  - intros _; apply (keeps_bind acquired acquired_trans).
    { now apply update_video_acquired. }
    intros _; apply keeps_ret; exact acquired_refl.
Qed.

Lemma insert_video_acquired row w :
  ~ In (Video.video_id row) (video_ids w) ->
  acquired w (snd (insert_video row w)).
Proof.
  intros Hn; unfold insert_video.
  destruct (Video.upload_date row); [apply acquired_refl|].
  split; [|auto].
  exists [Video.video_id row]; split; [|split].
  - unfold video_ids; simpl; now rewrite map_app.
  - constructor; [intros [] | constructor].
  - intros x [<-|[]]; exact Hn.
Qed.

Lemma select_video_id_empty w id :
  Table.select (fun v => String.eqb (Video.video_id v) id)
               (videos (catalog w)) = [] ->
  ~ In id (video_ids w).
Proof.
  intros Hs Hin; unfold video_ids in Hin.
  apply in_map_iff in Hin as (v & Hv & Hin).
  pose proof (select_empty_inv _ _ Hs v Hin) as H; simpl in H.
  rewrite Hv, String.eqb_refl in H; discriminate.
Qed.

Lemma download_entries_acquired k entries : forall n,
  keeps acquired (download_entries E k entries n).
Proof.
  induction entries as [|e rest IH]; intros n w; simpl.
  - apply acquired_refl.
  - destruct (max_videos E <=? n)%Z; [apply acquired_refl|].
    unfold bind at 1; unfold get_catalog at 1.
    destruct (Table.select _ (videos (catalog w))) as [|r rs] eqn:Hs;
      [|apply IH].
    apply select_video_id_empty in Hs.
    unfold bind at 1.
    destruct (parse_upload_date E e w) as [[d|x] w0] eqn:Hd.
    2:{ unfold parse_upload_date in Hd.
        destruct (Entry.upload_date e) as [s|]; try discriminate.
        destruct (String.eqb s ""); try discriminate.
        destruct (strptime_ymd E s); try discriminate.
        injection Hd as _ <-; apply acquired_refl. }
    assert (w0 = w) as ->.
    { unfold parse_upload_date in Hd.
      destruct (Entry.upload_date e) as [s|]; [|now injection Hd].
      destruct (String.eqb s ""); [now injection Hd|].
      destruct (strptime_ymd E s); [now injection Hd | discriminate]. }
    unfold bind at 1.
    pose proof (insert_video_acquired (video_data k e d) w Hs) as H1.
    destruct (insert_video (video_data k e d) w) as [[key|x] w1];
      simpl in *; [|exact H1].
    unfold bind.
    pose proof (download_entry_acquired key e n w1) as H2.
    destruct (download_entry E key e n w1) as [[n'|x] w2]; simpl in *.
    + eapply acquired_trans; [exact H1|].
      eapply acquired_trans; [exact H2 | apply IH].
    + eapply acquired_trans; eauto.
Qed.

Lemma download_channel_videos_acquired channel_id :
  keeps acquired (download_channel_videos E channel_id).
Proof.
  unfold download_channel_videos.
  apply (keeps_try_except acquired acquired_trans).
  2:{ intros _; apply keeps_ret; exact acquired_refl. }
  destruct (extract_info E _) as [entries|];
    [|apply keeps_raise; exact acquired_refl].
  intros w; unfold bind at 1; unfold get_catalog at 1.
  destruct (Table.select _ (channels (catalog w))) as [|[cid c] [|]];
    try apply acquired_refl.
  apply (keeps_bind acquired acquired_trans).
  { apply download_entries_acquired. }
  intros _; apply keeps_ret; exact acquired_refl.
Qed.

Lemma upsert_channel_acquired row : keeps acquired (upsert_channel row).
Proof. intros w; now apply acquired_same_ids. Qed.

Lemma sync_channels_acquired : keeps acquired (sync_channels E).
Proof.
  apply (keeps_for_each acquired acquired_refl acquired_trans).
  intros cid; destruct (String.eqb _ _);
    [apply keeps_ret; exact acquired_refl|].
  apply (keeps_try_except acquired acquired_trans).
  - destruct (extract_uploader E _);
      [apply upsert_channel_acquired | apply keeps_raise; exact acquired_refl].
  - intros _; apply keeps_ret; exact acquired_refl.
Qed.

Lemma run_acquired : keeps acquired (run E).
Proof.
  unfold run.
  apply (keeps_bind acquired acquired_trans).
  { apply sync_channels_acquired. }
  intros _ w; unfold bind, get_catalog.
  apply (keeps_for_each acquired acquired_refl acquired_trans).
  intros r; apply download_channel_videos_acquired.
Qed.

End Acquisition.

(** the world after a download attempt for a freshly inserted row *)
Definition after_attempt (w : World) (row : Video.t) (url : string) : World :=
  {| catalog :=
       {| channels := channels (catalog w);
          videos := (videos (catalog w) ++ [row])%list;
          transcripts := transcripts (catalog w);
          processed_content := processed_content (catalog w) |};
     llm_requests := llm_requests w;
     ydl_downloads := (ydl_downloads w ++ [url])%list |}.

Lemma select_video_id_absent w id :
  ~ In id (video_ids w) ->
  Table.select (fun v => String.eqb (Video.video_id v) id)
               (videos (catalog w)) = [].
Proof.
  intros Hn; apply select_nil; intros v Hv.
  apply String.eqb_neq; intros Heq; apply Hn.
  unfold video_ids; rewrite <- Heq; now apply in_map.
Qed.

Lemma select_video_id_present w id v :
  In v (videos (catalog w)) -> Video.video_id v = id ->
  exists r rs,
    Table.select (fun v => String.eqb (Video.video_id v) id)
                 (videos (catalog w)) = r :: rs.
Proof.
  intros Hin Hid.
  pose proof (select_nonempty
                (fun v => String.eqb (Video.video_id v) id)
                (videos (catalog w)) v Hin) as Hne.
  destruct (Table.select _ (videos (catalog w))) as [|r rs]; eauto.
  exfalso; apply Hne; auto.
  simpl; rewrite Hid; apply String.eqb_refl.
Qed.

(** An entry whose identifier is catalogued is skipped. *)
Lemma download_entries_skip E k e rest n w v :
  (max_videos E <=? n)%Z = false ->
  In v (videos (catalog w)) -> Video.video_id v = Entry.id e ->
  download_entries E k (e :: rest) n w = download_entries E k rest n w.
Proof.
  intros Hcap Hin Hid; simpl; rewrite Hcap.
  unfold bind at 1; unfold get_catalog at 1.
  now destruct (select_video_id_present w (Entry.id e) v Hin Hid)
    as (r & rs & ->).
Qed.

(** A new entry without an upload date: the row inserted, the download
    attempted, the row updated by the outcome, and the loop goes on with
    the rest. *)
Lemma download_entries_new E k e rest n w t :
  (max_videos E <=? n)%Z = false ->
  ~ In (Entry.id e) (video_ids w) ->
  parse_upload_date E e w = (Return None, w) ->
  Entry.title e = Some t ->
  download_entries E k (e :: rest) n w =
  if download E (watch_url (Entry.id e))
  then download_entries E k rest (n + 1)%Z
         (after_attempt w
            (mark_completed (now_isoformat E) (resolved_file_path E e)
                            (video_data k e None))
            (watch_url (Entry.id e)))
  else download_entries E k rest n
         (after_attempt w (mark_failed (video_data k e None))
            (watch_url (Entry.id e))).
Proof.
  intros Hcap Hnew Hd Ht; simpl; rewrite Hcap.
  unfold bind at 1; unfold get_catalog at 1.
  rewrite (select_video_id_absent w _ Hnew).
  unfold bind at 1; rewrite Hd.
  unfold bind at 1.
  change (insert_video (video_data k e None) w)
    with (Return (length (videos (catalog w))),
          snd (insert_video (video_data k e None) w)).
  cbv beta iota.
  unfold bind at 1.
  unfold download_entry, try_except, bind, ydl_download, update_video,
    set_videos, modify_catalog, with_catalog, ret, raise.
  rewrite Ht; simpl.
  destruct (download E (watch_url (Entry.id e))); simpl;
    rewrite update_last; reflexivity.
Qed.

(** A new entry whose upload date parses: the insert raises, nothing is
    inserted or downloaded, and the loop is left. *)
Lemma download_entries_dated E k e rest n w d :
  (max_videos E <=? n)%Z = false ->
  ~ In (Entry.id e) (video_ids w) ->
  parse_upload_date E e w = (Return (Some d), w) ->
  download_entries E k (e :: rest) n w = (Raise TypeError, w).
Proof.
  intros Hcap Hnew Hd; simpl; rewrite Hcap.
  unfold bind at 1; unfold get_catalog at 1.
  rewrite (select_video_id_absent w _ Hnew).
  unfold bind at 1; rewrite Hd.
  reflexivity.
Qed.

(** *** The scenario: channel abc123, three remote entries, one of them
    catalogued, and the download of another one failing *)

(** an entry that comes without an upload date *)
Definition entry_of (id title : string) : Entry.t :=
  {| Entry.id := id;
     Entry.title := Some title;
     Entry.description := None;
     Entry.duration := None;
     Entry.upload_date := None;
     Entry.thumbnail := None;
     Entry.channel := Some "Chan" |}.

Definition remote_entries : list Entry.t :=
  [entry_of "v1" "One"; entry_of "v2" "Two"; entry_of "v3" "Three"].

Definition env_abc123 : Env :=
  {| read_text := fun _ => None;
     watched_entries := [];
     create_completion := fun _ _ => None;
     extract_info := fun url =>
       if String.eqb url "https://www.youtube.com/channel/abc123/videos"
       then Some remote_entries else None;
     extract_uploader := fun _ => Some (Some (Some "Chan"));
     download := fun url => negb (String.eqb url (watch_url "v2"));
     strptime_ymd := fun s =>
       if String.eqb s "20240101"
       then Some {| year := 2024; month := 1; day := 1 |} else None;
     json_loads := fun _ => None;
     now_isoformat := "2024-01-02T03:04:05";
     elapsed_ms := fun _ => 0%Z;
     channel_list := ["abc123"];
     watched_folder := "/watched";
     max_videos := 10 |}.

Definition world_abc123 : World :=
  world_of
    {| channels :=
         [{| Channel.channel_id := "abc123";
             Channel.channel_name := Some "Chan";
             Channel.channel_url := "https://www.youtube.com/channel/abc123";
             Channel.is_active := true |}];
       videos :=
         [mark_completed "2024-01-01T00:00:00" "/watched/Chan/_One.mp4"
            (video_data 0 (entry_of "v1" "One") None)];
       transcripts := [];
       processed_content := [] |}.

(** the same entries as the fetch engine lists them when it knows the
    upload dates *)
Definition entry_dated (id title : string) : Entry.t :=
  {| Entry.id := id;
     Entry.title := Some title;
     Entry.description := None;
     Entry.duration := None;
     Entry.upload_date := Some "20240101";
     Entry.thumbnail := None;
     Entry.channel := Some "Chan" |}.

Definition remote_entries_dated : list Entry.t :=
  [entry_dated "v1" "One"; entry_dated "v2" "Two"; entry_dated "v3" "Three"].

Definition env_abc123_dated : Env :=
  {| read_text := read_text env_abc123;
     watched_entries := watched_entries env_abc123;
     create_completion := create_completion env_abc123;
     extract_info := fun url =>
       if String.eqb url "https://www.youtube.com/channel/abc123/videos"
       then Some remote_entries_dated else None;
     extract_uploader := extract_uploader env_abc123;
     download := download env_abc123;
     strptime_ymd := strptime_ymd env_abc123;
     json_loads := json_loads env_abc123;
     now_isoformat := now_isoformat env_abc123;
     elapsed_ms := elapsed_ms env_abc123;
     channel_list := channel_list env_abc123;
     watched_folder := watched_folder env_abc123;
     max_videos := max_videos env_abc123 |}.

(** C2. Two runs of the acquisition engine, whatever the remote listings
    and the download outcomes, leave the rows of the video table with
    their external identifiers and add at most one row for each
    identifier, none for an identifier that was catalogued; this is
    because an entry whose identifier is catalogued is skipped. *)
Theorem acquisition_idempotent :
  (forall E1 E2 w,
      exists new,
        video_ids (snd (run E2 (snd (run E1 w))))
        = (video_ids w ++ new)%list
        /\ NoDup new
        /\ forall x, In x new -> ~ In x (video_ids w))
  /\ (forall E1 E2 w id,
      count_occ string_dec (video_ids (snd (run E2 (snd (run E1 w))))) id
      <= Nat.max 1 (count_occ string_dec (video_ids w) id))
  /\ (forall E k e rest n w v,
      (max_videos E <=? n)%Z = false ->
      In v (videos (catalog w)) -> Video.video_id v = Entry.id e ->
      download_entries E k (e :: rest) n w = download_entries E k rest n w).
Proof.
  assert (H : forall E1 E2 w, acquired w (snd (run E2 (snd (run E1 w))))).
  { intros E1 E2 w; eapply acquired_trans; apply run_acquired. }
  split; [|split].
  - intros E1 E2 w; apply (H E1 E2 w).
  - intros E1 E2 w id.
    destruct (H E1 E2 w) as ((new & -> & Hnd & Hdis) & _).
    rewrite count_occ_app.
    pose proof (proj1 (NoDup_count_occ string_dec new) Hnd id) as H1.
    destruct (count_occ string_dec (video_ids w) id) as [|c] eqn:Hc; [lia|].
    assert (Hin : In id (video_ids w)).
    { apply (count_occ_In string_dec); lia. }
    assert (H0 : count_occ string_dec new id = 0).
    { apply count_occ_not_In; intros Hn; now apply (Hdis id). }
    lia.
  - exact download_entries_skip.
Qed.

Lemma acquisition_idempotent_witness :
  download_entries env_abc123 0 remote_entries 0 world_abc123
  = download_entries env_abc123 0 (tl remote_entries) 0 world_abc123.
Proof.
  apply (proj2 (proj2 acquisition_idempotent) env_abc123 0
           (entry_of "v1" "One") (tl remote_entries) 0%Z world_abc123
           (mark_completed "2024-01-01T00:00:00" "/watched/Chan/_One.mp4"
              (video_data 0 (entry_of "v1" "One") None))).
  - reflexivity.
  - simpl; auto.
  - reflexivity.
Defined.

(** C7. A new entry that the fetch engine lists with an upload date never
    gets its row: the date is parsed, the insert of the row raises
    [TypeError], outside the handler of the download, and the channel's
    loop is left with nothing inserted and nothing downloaded.  A new entry
    without an upload date is handled as the specification says: when the
    download returns, the row is set to completed with its downloaded-at
    time and resolved file path; when it raises, the row is set to failed;
    in both cases the loop goes on with the channel's remaining entries.
    In the scenario (three remote entries, one catalogued, the download of
    the second one failing) the run inserts no row and attempts no download
    when the entries carry their upload dates, and inserts two rows, one
    ending failed and the other completed, when they carry none. *)
Theorem dated_entries_abort_the_channel :
  (forall E k e rest n w d,
      (max_videos E <=? n)%Z = false ->
      ~ In (Entry.id e) (video_ids w) ->
      parse_upload_date E e w = (Return (Some d), w) ->
      download_entries E k (e :: rest) n w = (Raise TypeError, w))
  /\ (forall E k e rest n w t,
      (max_videos E <=? n)%Z = false ->
      ~ In (Entry.id e) (video_ids w) ->
      parse_upload_date E e w = (Return None, w) ->
      Entry.title e = Some t ->
      download_entries E k (e :: rest) n w =
      if download E (watch_url (Entry.id e))
      then download_entries E k rest (n + 1)%Z
             (after_attempt w
                (mark_completed (now_isoformat E) (resolved_file_path E e)
                                (video_data k e None))
                (watch_url (Entry.id e)))
      else download_entries E k rest n
             (after_attempt w (mark_failed (video_data k e None))
                (watch_url (Entry.id e))))
  /\ run env_abc123_dated world_abc123 = (Return tt, world_abc123)
  /\ download_entries env_abc123_dated 0 remote_entries_dated 0 world_abc123
     = (Raise TypeError, world_abc123)
  /\ (let w' := snd (run env_abc123 world_abc123) in
      fst (run env_abc123 world_abc123) = Return tt
      /\ map (fun v => (Video.video_id v, Video.download_status v,
                        Video.downloaded_at v, Video.file_path v))
             (videos (catalog w'))
         = [("v1", completed, Some "2024-01-01T00:00:00",
             Some "/watched/Chan/_One.mp4");
            ("v2", failed, None, None);
            ("v3", completed, Some "2024-01-02T03:04:05",
             Some "/watched/Chan/_Three.mp4")]
      /\ ydl_downloads w' = [watch_url "v2"; watch_url "v3"]).
Proof.
  split; [exact download_entries_dated|].
  split; [exact download_entries_new|].
  vm_compute; repeat split.
Qed.

Lemma dated_entries_abort_the_channel_witness :
  download_entries env_abc123_dated 0 (tl remote_entries_dated) 0 world_abc123
  = (Raise TypeError, world_abc123)
  /\ download_entries env_abc123 0 (tl remote_entries) 0 world_abc123
     = download_entries env_abc123 0 [entry_of "v3" "Three"] 0
         (after_attempt world_abc123
            (mark_failed (video_data 0 (entry_of "v2" "Two") None))
            (watch_url "v2")).
Proof.
  split.
  - apply (proj1 dated_entries_abort_the_channel env_abc123_dated 0
             (entry_dated "v2" "Two") [entry_dated "v3" "Three"] 0%Z
             world_abc123 {| year := 2024; month := 1; day := 1 |}).
    + reflexivity.
    + simpl; intros [H|[]]; discriminate.
    + reflexivity.
  - apply (proj1 (proj2 dated_entries_abort_the_channel) env_abc123 0
             (entry_of "v2" "Two") [entry_of "v3" "Three"] 0%Z world_abc123
             "Two").
    + reflexivity.
    + simpl; intros [H|[]]; discriminate.
    + reflexivity.
    + reflexivity.
Defined.

(** ** Executions and the references between rows *)


(** the entry points: an acquisition run, the start-up scan, and the
    delivery of a creation event *)
Inductive Action : Type :=
| RunDownloader
| ScanExisting
| Created (event : FileEvent).

Definition perform (E : Env) (a : Action) : M unit :=
  match a with
  | RunDownloader => run E
  | ScanExisting => scan_existing_transcripts E
  | Created event => on_created E event
  end.

(** an execution: entry points run one after the other, each in the
    environment of its time *)
Fixpoint execute (steps : list (Env * Action)) (w : World) : World :=
  match steps with
  | [] => w
  | (E, a) :: rest => execute rest (snd (perform E a w))
  end.








(** * Further properties of the code *)

(** ** The matcher returns the first row that answers the title query *)





(** ** The acquisition engine: what a call adds to the catalog *)

Definition never_raises (m : M unit) : Prop :=
  forall w, fst (m w) = Return tt.

Lemma never_raises_for_each {A} (l : list A) (body : A -> M unit) :
  (forall x, never_raises (body x)) -> never_raises (for_each l body).
Proof.
  intros H; induction l as [|x l IH]; intros w; simpl; auto.
  unfold bind; specialize (H x w).
  destruct (body x w) as [[[]|e] w1]; simpl in *; try discriminate.
  apply IH.
Qed.

Lemma never_raises_try_except (m : M unit) :
  never_raises (try_except m (fun _ => ret tt)).
Proof.
  intros w; unfold try_except.
  destruct (m w) as [[[]|e] w1]; reflexivity.
Qed.

(** a row whose download attempt is over: completed with its time and its
    path, or failed without them *)
Definition settled (v : Video.t) : bool :=
  match Video.download_status v, Video.downloaded_at v, Video.file_path v with
  | completed, Some _, Some _ => true
  | failed, None, None => true
  | _, _, _ => false
  end.

(** the world with one more video row and the download requests [dl] *)
Definition added (w : World) (row : Video.t) (dl : list string) : World :=
  {| catalog :=
       {| channels := channels (catalog w);
          videos := (videos (catalog w) ++ [row])%list;
          transcripts := transcripts (catalog w);
          processed_content := processed_content (catalog w) |};
     llm_requests := llm_requests w;
     ydl_downloads := (ydl_downloads w ++ dl)%list |}.

Lemma parse_upload_date_cases E e w :
  (exists d, parse_upload_date E e w = (Return d, w))
  \/ (parse_upload_date E e w = (Raise ValueError, w)
      /\ exists s, Entry.upload_date e = Some s /\ s <> ""
                   /\ strptime_ymd E s = None).
Proof.
  unfold parse_upload_date.
  destruct (Entry.upload_date e) as [s|]; [|left; eexists; reflexivity].
  destruct (String.eqb s "") eqn:Hs; [left; eexists; reflexivity|].
  destruct (strptime_ymd E s) eqn:Hd; [left; eexists; reflexivity|].
  right; split; [reflexivity|].
  exists s; repeat split; auto.
  now apply String.eqb_neq.
Qed.

(** The insertion of a row for a new entry without an upload date,
    followed by the entry's download attempt. *)
Lemma entry_turn E k e n w :
  bind (insert_video (video_data k e None))
       (fun key => download_entry E key e n) w
  = match Entry.title e with
    | None => (Return n, added w (mark_failed (video_data k e None)) [])
    | Some _ =>
        if download E (watch_url (Entry.id e))
        then (Return (n + 1)%Z,
              added w
                (mark_completed (now_isoformat E) (resolved_file_path E e)
                                (video_data k e None))
                [watch_url (Entry.id e)])
        else (Return n,
              added w (mark_failed (video_data k e None))
                    [watch_url (Entry.id e)])
    end.
Proof.
  unfold bind at 1.
  change (insert_video (video_data k e None) w)
    with (Return (length (videos (catalog w))),
          snd (insert_video (video_data k e None) w)).
  cbv beta iota.
  unfold download_entry, try_except, bind, ydl_download, update_video,
    set_videos, modify_catalog, with_catalog, ret, raise, added.
  destruct (Entry.title e) as [t|]; simpl.
  - destruct (download E (watch_url (Entry.id e))); simpl;
      rewrite update_last; reflexivity.
  - rewrite update_last, app_nil_r; reflexivity.
Qed.

(** [adds k bound w w']: from [w] to [w'] at most [bound] video rows were
    appended, all for the channel row [k] and all settled; the download
    requests sent are for rows among them, at most one for each; nothing
    else has changed. *)
Definition adds (k bound : nat) (w w' : World) : Prop :=
  exists new dl,
    videos (catalog w') = (videos (catalog w) ++ new)%list
    /\ ydl_downloads w' = (ydl_downloads w ++ dl)%list
    /\ Forall (fun v => settled v = true) new
    /\ Forall (fun v => Video.channel_id v = k) new
    /\ length new <= bound
    /\ length dl <= length new
    /\ incl dl (map (fun v => watch_url (Video.video_id v)) new)
    /\ channels (catalog w') = channels (catalog w)
    /\ transcripts (catalog w') = transcripts (catalog w)
    /\ processed_content (catalog w') = processed_content (catalog w)
    /\ llm_requests w' = llm_requests w.

Lemma adds_refl k bound w : adds k bound w w.
Proof.
  exists [], []; rewrite !app_nil_r.
  repeat split; auto; simpl; try lia.
  intros x [].
Qed.

Lemma adds_weaken k b1 b2 w w' : b1 <= b2 -> adds k b1 w w' -> adds k b2 w w'.
Proof.
  intros Hb (new & dl & H); exists new, dl.
  repeat split; try apply H; destruct H as (_ & _ & _ & _ & H & _); lia.
Qed.

Lemma adds_added k b w row dl w' :
  settled row = true -> Video.channel_id row = k ->
  length dl <= 1 -> incl dl [watch_url (Video.video_id row)] ->
  adds k b (added w row dl) w' -> adds k (S b) w w'.
Proof.
  intros Hs Hk Hd Hi (new & dl' & Hv & Hy & Hse & Hc & Hb & Hl & Hi' & H).
  exists (row :: new), (dl ++ dl')%list; simpl in *.
  rewrite Hv, Hy, <- !app_assoc, length_app.
  repeat split; auto; try apply H; try lia.
  intros x Hx; apply in_app_or in Hx as [Hx|Hx].
  - destruct (Hi x Hx) as [<-|[]]; now left.
  - right; now apply Hi'.
Qed.

Lemma settled_mark_failed k e d : settled (mark_failed (video_data k e d)) = true.
Proof. reflexivity. Qed.

Lemma settled_mark_completed t p k e d :
  settled (mark_completed t p (video_data k e d)) = true.
Proof. reflexivity. Qed.

Lemma download_entries_adds E k entries : forall n w,
  adds k (length entries) w (snd (download_entries E k entries n w)).
Proof.
  induction entries as [|e rest IH]; intros n w.
  - apply adds_refl.
  - cbn [download_entries length].
    destruct (max_videos E <=? n)%Z; [apply adds_refl|].
    unfold bind at 1; unfold get_catalog at 1.
    destruct (Table.select _ (videos (catalog w))) as [|r rs].
    2:{ apply (adds_weaken k (length rest)); [lia | apply IH]. }
    unfold bind at 1.
    destruct (parse_upload_date_cases E e w) as [[d Hd]|[Hd _]]; rewrite Hd;
      [|apply adds_refl].
    destruct d as [d|]; [apply adds_refl|].
    change (bind (insert_video (video_data k e None))
                 (fun key => bind (download_entry E key e n)
                                  (fun n' => download_entries E k rest n')) w)
      with (bind (bind (insert_video (video_data k e None))
                       (fun key => download_entry E key e n))
                 (fun n' => download_entries E k rest n') w).
    unfold bind at 1; rewrite entry_turn.
    destruct (Entry.title e) as [t|].
    + destruct (download E (watch_url (Entry.id e)));
        eapply adds_added; try apply IH; auto; apply incl_refl.
    + eapply adds_added; try apply IH; simpl; auto.
      intros x [].
Qed.

Lemma length_py_slice_to {A} (n : Z) (l : list A) :
  (0 <= n)%Z -> length (py_slice_to n l) <= Z.to_nat n.
Proof.
  intros Hn; unfold py_slice_to.
  destruct (0 <=? n)%Z eqn:H; [|lia].
  rewrite length_firstn; lia.
Qed.

Lemma download_entries_capped E k entries n w :
  (max_videos E <= n)%Z ->
  download_entries E k entries n w = (Return n, w).
Proof.
  intros H; destruct entries as [|e rest]; [reflexivity|].
  cbn [download_entries].
  now destruct (Z.leb_spec (max_videos E) n); [|lia].
Qed.

Lemma select_from_In_conv {A} (p : A -> bool) (l : list A) n k x :
  nth_error l k = Some x -> p x = true ->
  In (n + k, x)
     (filter (fun r : nat * A => p (snd r)) (combine (seq n (length l)) l)).
Proof.
  revert n k; induction l as [|y l IH]; intros n [|k]; simpl;
    try discriminate.
  - intros H Hp; injection H as ->; rewrite Hp, Nat.add_0_r; now left.
  - intros H Hp; specialize (IH (S n) k H Hp).
    replace (n + S k) with (S n + k) by lia.
    destruct (p y); [right|]; exact IH.
Qed.

Lemma select_In_conv {A} (p : A -> bool) (l : list A) k x :
  nth_error l k = Some x -> p x = true -> In (k, x) (Table.select p l).
Proof. intros H Hp; exact (select_from_In_conv p l 0 k x H Hp). Qed.

Lemma download_channel_videos_eq E channel_id w :
  download_channel_videos E channel_id w =
  match extract_info E ("https://www.youtube.com/channel/" ++ channel_id
                        ++ "/videos") with
  | None => (Return tt, w)
  | Some entries =>
      match Table.select
              (fun r => String.eqb (Channel.channel_id r) channel_id)
              (channels (catalog w)) with
      | [(k, _)] =>
          (Return tt,
           snd (download_entries E k (py_slice_to (max_videos E) entries)
                                 0%Z w))
      | _ => (Return tt, w)
      end
  end.
Proof.
  unfold download_channel_videos, try_except.
  destruct (extract_info E _) as [entries|]; [|reflexivity].
  unfold bind at 1; unfold get_catalog at 1.
  destruct (Table.select _ (channels (catalog w))) as [|[k r] [|]];
    try reflexivity.
  unfold bind.
  destruct (download_entries E k _ 0%Z w) as [[n|x] w1]; reflexivity.
Qed.

(** What a call of [download_channel_videos] does: it returns normally,
    and either nothing has changed or the channel is registered under one
    row, for which rows were added. *)
Lemma download_channel_videos_adds E channel_id w :
  fst (download_channel_videos E channel_id w) = Return tt
  /\ (snd (download_channel_videos E channel_id w) = w
      \/ exists k r,
           Table.select
             (fun r => String.eqb (Channel.channel_id r) channel_id)
             (channels (catalog w)) = [(k, r)]
           /\ adds k (Z.to_nat (max_videos E)) w
                   (snd (download_channel_videos E channel_id w))).
Proof.
  split; [apply never_raises_try_except|].
  rewrite download_channel_videos_eq.
  destruct (extract_info E _) as [entries|]; [|now left].
  destruct (Table.select _ (channels (catalog w))) as [|[k r] [|]] eqn:Hs;
    try (now left).
  right; exists k, r; split; [reflexivity|].
  cbn [snd].
  destruct (Z.le_gt_cases (max_videos E) 0) as [Hm|Hm].
  - rewrite download_entries_capped by exact Hm; apply adds_refl.
  - eapply adds_weaken; [|apply download_entries_adds].
    apply length_py_slice_to; lia.
Qed.

(** [requests_for dl new]: the download requests [dl] are for rows of
    [new], in the order of the rows and at most one for each row *)
Inductive requests_for : list string -> list Video.t -> Prop :=
| requests_none : requests_for [] []
| requests_skip v new dl :
    requests_for dl new -> requests_for dl (v :: new)
| requests_row v new dl :
    requests_for dl new ->
    requests_for (watch_url (Video.video_id v) :: dl) (v :: new).

Lemma requests_for_app dl1 new1 dl2 new2 :
  requests_for dl1 new1 -> requests_for dl2 new2 ->
  requests_for (dl1 ++ dl2) (new1 ++ new2).
Proof.
  induction 1; intros H2; simpl; auto; now constructor; apply IHrequests_for.
Qed.

Lemma requests_for_length dl new :
  requests_for dl new -> length dl <= length new.
Proof. induction 1; simpl; lia. Qed.

Lemma requests_for_In dl new url :
  requests_for dl new -> In url dl ->
  exists v, In v new /\ url = watch_url (Video.video_id v).
Proof.
  induction 1; simpl; [tauto| |].
  - intros H1; destruct (IHrequests_for H1) as (x & Hx & ->); eauto.
  - intros [<-|H1]; [eauto|].
    destruct (IHrequests_for H1) as (x & Hx & ->); eauto.
Qed.

Lemma watch_url_inj a b : watch_url a = watch_url b -> a = b.
Proof. unfold watch_url; simpl; intros H; now injection H. Qed.

Lemma requests_for_NoDup dl new :
  requests_for dl new -> NoDup (map Video.video_id new) -> NoDup dl.
Proof.
  induction 1; simpl; intros Hn; [constructor| |];
    apply NoDup_cons_iff in Hn as [Hv Hn]; auto.
  constructor; auto.
  intros Hin; apply Hv.
  destruct (requests_for_In _ _ _ H Hin) as (x & Hx & Hu).
  apply watch_url_inj in Hu; rewrite Hu; now apply in_map.
Qed.

(** [requested w w']: video rows and download requests were appended, the
    requests being for the rows *)
Definition requested (w w' : World) : Prop :=
  exists new dl,
    videos (catalog w') = (videos (catalog w) ++ new)%list
    /\ ydl_downloads w' = (ydl_downloads w ++ dl)%list
    /\ requests_for dl new.

Lemma requested_refl w : requested w w.
Proof. exists [], []; rewrite !app_nil_r; repeat split; constructor. Qed.

Lemma requested_added w row dl w' :
  requests_for dl [row] -> requested (added w row dl) w' -> requested w w'.
Proof.
  intros Hr (new & dl' & Hv & Hy & H).
  exists (row :: new), (dl ++ dl')%list; simpl in *.
  rewrite Hv, Hy, <- !app_assoc; repeat split.
  now apply (requests_for_app dl [row] dl' new).
Qed.

Lemma download_entries_requested E k entries : forall n w,
  requested w (snd (download_entries E k entries n w)).
Proof.
  induction entries as [|e rest IH]; intros n w.
  - apply requested_refl.
  - cbn [download_entries].
    destruct (max_videos E <=? n)%Z; [apply requested_refl|].
    unfold bind at 1; unfold get_catalog at 1.
    destruct (Table.select _ (videos (catalog w))) as [|r rs]; [|apply IH].
    unfold bind at 1.
    destruct (parse_upload_date_cases E e w) as [[d Hd]|[Hd _]]; rewrite Hd;
      [|apply requested_refl].
    destruct d as [d|]; [apply requested_refl|].
    change (bind (insert_video (video_data k e None))
                 (fun key => bind (download_entry E key e n)
                                  (fun n' => download_entries E k rest n')) w)
      with (bind (bind (insert_video (video_data k e None))
                       (fun key => download_entry E key e n))
                 (fun n' => download_entries E k rest n') w).
    unfold bind at 1; rewrite entry_turn.
    destruct (Entry.title e) as [t|].
    + destruct (download E (watch_url (Entry.id e)));
        (eapply requested_added; [|apply IH]).
      * exact (requests_row
                 (mark_completed (now_isoformat E) (resolved_file_path E e)
                                 (video_data k e None))
                 [] [] requests_none).
      * exact (requests_row (mark_failed (video_data k e None)) [] []
                            requests_none).
    + eapply requested_added; [|apply IH].
      repeat constructor.
Qed.

Lemma download_channel_videos_requested E channel_id w :
  requested w (snd (download_channel_videos E channel_id w)).
Proof.
  rewrite download_channel_videos_eq.
  destruct (extract_info E _) as [entries|]; [|apply requested_refl].
  destruct (Table.select _ (channels (catalog w))) as [|[k r] [|]];
    try apply requested_refl.
  apply download_entries_requested.
Qed.

(** X2. A call of [download_channel_videos] appends at most [max_videos]
    rows to the video table, for video identifiers that differ from one
    another; the download requests it sends are for rows it appends, in
    the order of the rows and at most one for each row, so that no URL is
    requested twice; with a cap of zero or less it appends nothing and
    downloads nothing. *)
Theorem download_channel_videos_cap E channel_id w :
  exists new dl,
    videos (catalog (snd (download_channel_videos E channel_id w)))
    = (videos (catalog w) ++ new)%list
    /\ ydl_downloads (snd (download_channel_videos E channel_id w))
       = (ydl_downloads w ++ dl)%list
    /\ length new <= Z.to_nat (max_videos E)
    /\ requests_for dl new
    /\ NoDup (map Video.video_id new)
    /\ NoDup dl
    /\ length dl <= length new
    /\ ((max_videos E <= 0)%Z -> new = [] /\ dl = []).
Proof.
  destruct (download_channel_videos_requested E channel_id w)
    as (new & dl & Hv & Hy & Hr).
  exists new, dl.
  assert (Hn : NoDup (map Video.video_id new)).
  { destruct (download_channel_videos_acquired E channel_id w)
      as ((ids & Hi & Hnd & _) & _).
    unfold video_ids in Hi; rewrite Hv, map_app in Hi.
    now apply app_inv_head in Hi; subst ids. }
  assert (Hb : length new <= Z.to_nat (max_videos E)).
  { destruct (download_channel_videos_adds E channel_id w)
      as [_ [Hw|(k & r & _ & new' & dl' & Hv' & _ & _ & _ & Hb & _)]].
    - rewrite Hw in Hv.
      rewrite <- (app_nil_r (videos (catalog w))) in Hv at 1.
      apply app_inv_head in Hv; subst new; simpl; lia.
    - rewrite Hv in Hv'; now apply app_inv_head in Hv'; subst new'. }
  pose proof (requests_for_length _ _ Hr) as Hl.
  repeat split; auto.
  - now apply (requests_for_NoDup dl new).
  - destruct new; [reflexivity | simpl in Hb; lia].
  - destruct dl; [reflexivity|].
    destruct new; simpl in *; lia.
Qed.

(** X3. A channel that cannot be listed, or that the catalog does not
    hold under exactly one row, is passed over: the call returns
    normally and the world is as before. *)
Theorem download_channel_videos_unregistered E channel_id w :
  extract_info E ("https://www.youtube.com/channel/" ++ channel_id
                  ++ "/videos") = None
  \/ length (Table.select
               (fun r => String.eqb (Channel.channel_id r) channel_id)
               (channels (catalog w))) <> 1 ->
  download_channel_videos E channel_id w = (Return tt, w).
Proof.
  intros H; rewrite download_channel_videos_eq.
  destruct (extract_info E _) as [entries|]; [|reflexivity].
  destruct H as [H|H]; [discriminate|].
  destruct (Table.select _ (channels (catalog w))) as [|[k r] [|]];
    try reflexivity.
  now destruct H.
Qed.

Lemma download_channel_videos_unregistered_witness :
  download_channel_videos env_abc123 "abc123"
    (world_of (catalog_of_videos [intro_to_systems]))
  = (Return tt, world_of (catalog_of_videos [intro_to_systems])).
Proof.
  apply (download_channel_videos_unregistered env_abc123 "abc123").
  right; simpl; discriminate.
Defined.

(** ** Entries that do not reach the download *)

Lemma download_entries_skip_all E k pre rest n w :
  (max_videos E <=? n)%Z = false ->
  Forall (fun e => In (Entry.id e) (video_ids w)) pre ->
  download_entries E k (pre ++ rest) n w = download_entries E k rest n w.
Proof.
  intros Hcap H; induction H as [|e pre He _ IH]; [reflexivity|].
  unfold video_ids in He; apply in_map_iff in He as (v & Hid & Hin).
  change ((e :: pre) ++ rest)%list with (e :: (pre ++ rest))%list.
  now rewrite (download_entries_skip E k e (pre ++ rest) n w v Hcap Hin Hid).
Qed.

(** X4. An entry whose [upload_date] is not empty and is rejected by the
    date parser makes the loop over the channel's entries raise before
    any row is inserted for it: the entries after it are not visited, and
    when it is the first new entry of the listing the whole call leaves
    the world as it was (and returns normally). *)
Theorem malformed_upload_date_aborts_channel
    E channel_id k r pre e rest s w :
  Forall (fun e' => In (Entry.id e') (video_ids w)) pre ->
  ~ In (Entry.id e) (video_ids w) ->
  Entry.upload_date e = Some s -> s <> "" -> strptime_ymd E s = None ->
  (forall n, (max_videos E <=? n)%Z = false ->
     download_entries E k (pre ++ e :: rest) n w = (Raise ValueError, w))
  /\ (extract_info E ("https://www.youtube.com/channel/" ++ channel_id
                      ++ "/videos") = Some (pre ++ e :: rest)%list ->
      Table.select (fun r => String.eqb (Channel.channel_id r) channel_id)
                   (channels (catalog w)) = [(k, r)] ->
      (Z.of_nat (length pre) < max_videos E)%Z ->
      download_channel_videos E channel_id w = (Return tt, w)).
Proof.
  intros Hpre Hnew Hs Hne Hd.
  assert (L : forall rest0 n, (max_videos E <=? n)%Z = false ->
     download_entries E k (pre ++ e :: rest0) n w = (Raise ValueError, w)).
  { intros rest0 n Hcap.
    rewrite (download_entries_skip_all E k pre (e :: rest0) n w Hcap Hpre).
    cbn [download_entries]; rewrite Hcap.
    unfold bind at 1; unfold get_catalog at 1.
    rewrite (select_video_id_absent w _ Hnew).
    unfold bind, parse_upload_date; rewrite Hs.
    apply String.eqb_neq in Hne; rewrite Hne, Hd; reflexivity. }
  split; [apply L|].
  intros Hi Hc Hm; rewrite download_channel_videos_eq, Hi, Hc.
  f_equal.
  assert (Hsl : exists rest0,
             py_slice_to (max_videos E) (pre ++ e :: rest)
             = (pre ++ e :: rest0)%list).
  { unfold py_slice_to.
    destruct (Z.leb_spec 0 (max_videos E)); [|lia].
    rewrite firstn_app.
    rewrite firstn_all2 by lia.
    replace (Z.to_nat (max_videos E) - length pre)
      with (S (Z.to_nat (max_videos E) - length pre - 1)) by lia.
    simpl; eauto. }
  destruct Hsl as [rest0 ->].
  rewrite L; [reflexivity|].
  apply Z.leb_gt; lia.
Qed.

(** the second remote entry comes with a date that is no date *)
Definition entry_bad_date : Entry.t :=
  {| Entry.id := "v2";
     Entry.title := Some "Two";
     Entry.description := None;
     Entry.duration := None;
     Entry.upload_date := Some "NA";
     Entry.thumbnail := None;
     Entry.channel := Some "Chan" |}.

Lemma malformed_upload_date_aborts_channel_witness :
  download_entries env_abc123 0
    [entry_of "v1" "One"; entry_bad_date; entry_of "v3" "Three"] 0
    world_abc123
  = (Raise ValueError, world_abc123).
Proof.
  assert (Hpre : Forall (fun e' => In (Entry.id e') (video_ids world_abc123))
                        [entry_of "v1" "One"]).
  { constructor; [now left | constructor]. }
  assert (Hnew : ~ In (Entry.id entry_bad_date) (video_ids world_abc123)).
  { simpl; intros [H|[]]; discriminate. }
  assert (Hne : "NA" <> "") by discriminate.
  apply (proj1 (malformed_upload_date_aborts_channel env_abc123 "abc123" 0
                  {| Channel.channel_id := "abc123";
                     Channel.channel_name := Some "Chan";
                     Channel.channel_url :=
                       "https://www.youtube.com/channel/abc123";
                     Channel.is_active := true |}
                  [entry_of "v1" "One"] entry_bad_date
                  [entry_of "v3" "Three"] "NA" world_abc123
                  Hpre Hnew eq_refl Hne eq_refl)).
  reflexivity.
Defined.

(** X5. A new entry without a [title] key and without an upload date
    gets its row, with an empty title, and the row is set to failed
    without any download request being sent; the loop goes on with the
    remaining entries and the counter as it was. *)
Theorem missing_title_marks_failed E k e rest n w :
  (max_videos E <=? n)%Z = false ->
  ~ In (Entry.id e) (video_ids w) ->
  parse_upload_date E e w = (Return None, w) ->
  Entry.title e = None ->
  download_entries E k (e :: rest) n w
  = download_entries E k rest n
      (added w (mark_failed (video_data k e None)) [])
  /\ Video.title (mark_failed (video_data k e None)) = ""
  /\ Video.download_status (mark_failed (video_data k e None)) = failed
  /\ ydl_downloads (added w (mark_failed (video_data k e None)) [])
     = ydl_downloads w.
Proof.
  intros Hcap Hnew Hd Ht.
  split; [|split; [|split]].
  - cbn [download_entries]; rewrite Hcap.
    unfold bind at 1; unfold get_catalog at 1.
    rewrite (select_video_id_absent w _ Hnew).
    unfold bind at 1; rewrite Hd.
    change (bind (insert_video (video_data k e None))
                 (fun key => bind (download_entry E key e n)
                                  (fun n' => download_entries E k rest n')) w)
      with (bind (bind (insert_video (video_data k e None))
                       (fun key => download_entry E key e n))
                 (fun n' => download_entries E k rest n') w).
    unfold bind at 1; rewrite entry_turn, Ht; reflexivity.
  - simpl; now rewrite Ht.
  - reflexivity.
  - simpl; apply app_nil_r.
Qed.

Definition entry_untitled : Entry.t :=
  {| Entry.id := "v4";
     Entry.title := None;
     Entry.description := None;
     Entry.duration := None;
     Entry.upload_date := None;
     Entry.thumbnail := None;
     Entry.channel := None |}.

Lemma missing_title_marks_failed_witness :
  download_entries env_abc123 0 [entry_untitled] 0 world_abc123
  = (Return 0%Z,
     added world_abc123 (mark_failed (video_data 0 entry_untitled None)) []).
Proof.
  assert (Hnew : ~ In (Entry.id entry_untitled) (video_ids world_abc123)).
  { simpl; intros [H|[]]; discriminate. }
  apply (proj1 (missing_title_marks_failed env_abc123 0 entry_untitled []
                  0%Z world_abc123 eq_refl Hnew eq_refl eq_refl)).
Defined.

(** ** The channel table under [sync_channels] *)

(** the row that [sync_channels] writes for a configured channel *)
Definition registered_row (channel_id : string)
    (uploader : option (option string)) : Channel.t :=
  {| Channel.channel_id := channel_id;
     Channel.channel_name := get_or uploader (Some channel_id);
     Channel.channel_url := "https://www.youtube.com/channel/" ++ channel_id;
     Channel.is_active := true |}.

(** the channel table after [upsert(row, on_conflict='channel_id')] *)
Definition upserted (row : Channel.t) (l : list Channel.t) : list Channel.t :=
  channels (catalog (snd (upsert_channel row
    (world_of {| channels := l; videos := []; transcripts := [];
                 processed_content := [] |})))).

Lemma upsert_channel_channels row w :
  channels (catalog (snd (upsert_channel row w)))
  = upserted row (channels (catalog w)).
Proof. reflexivity. Qed.

(** one turn of the loop of [sync_channels] *)
Definition sync_channel (E : Env) (channel_id : string) : M unit :=
  if String.eqb (PyStr.strip channel_id) "" then ret tt
  else
    let channel_url := "https://www.youtube.com/channel/" ++ channel_id in
    try_except
      (match extract_uploader E channel_url with
       | None => raise DownloadError
       | Some uploader =>
           upsert_channel
             {| Channel.channel_id := channel_id;
                Channel.channel_name := get_or uploader (Some channel_id);
                Channel.channel_url := channel_url;
                Channel.is_active := true |}
       end)
      (fun _ => ret tt).

Lemma sync_channels_loop E :
  sync_channels E = for_each (channel_list E) (sync_channel E).
Proof. reflexivity. Qed.

Lemma sync_channel_eq E channel_id w :
  sync_channel E channel_id w
  = if String.eqb (PyStr.strip channel_id) "" then (Return tt, w)
    else match extract_uploader E ("https://www.youtube.com/channel/"
                                   ++ channel_id) with
         | None => (Return tt, w)
         | Some uploader =>
             (Return tt,
              snd (upsert_channel (registered_row channel_id uploader) w))
         end.
Proof.
  unfold sync_channel.
  destruct (String.eqb _ ""); [reflexivity|].
  unfold try_except.
  destruct (extract_uploader E _); reflexivity.
Qed.

Lemma sync_channel_never_raises E channel_id :
  never_raises (sync_channel E channel_id).
Proof.
  intros w; rewrite sync_channel_eq.
  destruct (String.eqb _ ""); [reflexivity|].
  destruct (extract_uploader E _); reflexivity.
Qed.

(** ** Loops and what they establish *)

Lemma for_each_invariant {A} (P : World -> Prop) (l : list A)
    (body : A -> M unit) :
  (forall x w, P w -> P (snd (body x w))) ->
  forall w, P w -> P (snd (for_each l body w)).
Proof.
  intros Hb; induction l as [|x l IH]; intros w Hw; [exact Hw|].
  cbn [for_each]; unfold bind.
  specialize (Hb x w Hw).
  destruct (body x w) as [[[]|e] w1]; simpl in *; auto.
Qed.

Lemma for_each_establishes {A} (P : World -> Prop) (l : list A)
    (body : A -> M unit) x :
  In x l ->
  (forall y, never_raises (body y)) ->
  (forall w, P (snd (body x w))) ->
  (forall y w, P w -> P (snd (body y w))) ->
  forall w, P (snd (for_each l body w)).
Proof.
  intros Hin Hn Hx Hb; induction l as [|y l IH]; intros w; [destruct Hin|].
  cbn [for_each]; unfold bind.
  pose proof (Hn y w) as Hr.
  destruct Hin as [->|Hin].
  - specialize (Hx w).
    destruct (body x w) as [[[]|e] w1]; simpl in *; try discriminate.
    now apply for_each_invariant.
  - destruct (body y w) as [[[]|e] w1]; simpl in *; try discriminate.
    now apply IH.
Qed.

(** [channels_kept l l']: every row of [l] has, at its position in [l'], a
    row for the same channel, and an active one when it was active *)
Definition channels_kept (l l' : list Channel.t) : Prop :=
  forall k r,
    nth_error l k = Some r ->
    exists r',
      nth_error l' k = Some r'
      /\ Channel.channel_id r' = Channel.channel_id r
      /\ (Channel.is_active r = true -> Channel.is_active r' = true).

Lemma channels_kept_refl l : channels_kept l l.
Proof. intros k r H; exists r; auto. Qed.

Lemma channels_kept_trans l1 l2 l3 :
  channels_kept l1 l2 -> channels_kept l2 l3 -> channels_kept l1 l3.
Proof.
  intros H1 H2 k r Hr.
  destruct (H1 k r Hr) as (r' & Hr' & Hi & Ha).
  destruct (H2 k r' Hr') as (r'' & Hr'' & Hi' & Ha').
  exists r''; repeat split; auto; congruence.
Qed.

Lemma upserted_kept row l :
  Channel.is_active row = true -> channels_kept l (upserted row l).
Proof.
  intros Hrow k r Hr; unfold upserted; simpl.
  destruct (existsb _ l).
  - rewrite nth_error_map, Hr; simpl.
    destruct (String.eqb (Channel.channel_id r) (Channel.channel_id row))
      eqn:He.
    + apply String.eqb_eq in He; exists row; auto.
    + exists r; auto.
  - exists r; rewrite nth_error_app1; auto.
    apply nth_error_Some; congruence.
Qed.

Lemma upserted_ids row l :
  map Channel.channel_id (upserted row l)
  = if existsb (fun r => String.eqb (Channel.channel_id r)
                                    (Channel.channel_id row)) l
    then map Channel.channel_id l
    else (map Channel.channel_id l ++ [Channel.channel_id row])%list.
Proof.
  unfold upserted; simpl.
  destruct (existsb _ l).
  - rewrite map_map; apply map_ext; intros r.
    destruct (String.eqb _ _) eqn:He; auto.
    now apply String.eqb_eq in He.
  - now rewrite map_app.
Qed.

Lemma upserted_NoDup row l :
  NoDup (map Channel.channel_id l) ->
  NoDup (map Channel.channel_id (upserted row l)).
Proof.
  intros H; rewrite upserted_ids.
  destruct (existsb _ l) eqn:He; auto.
  apply NoDup_app; auto.
  - constructor; [intros [] | constructor].
  - intros x Hx [<-|[]].
    apply in_map_iff in Hx as (r & Hr & Hin).
    assert (existsb (fun r => String.eqb (Channel.channel_id r)
                                         (Channel.channel_id row)) l = true).
    { apply existsb_exists; exists r; split; auto.
      now apply String.eqb_eq. }
    congruence.
Qed.

Lemma upserted_In row l : In row (upserted row l).
Proof.
  unfold upserted; simpl.
  destruct (existsb _ l) eqn:He.
  - apply existsb_exists in He as (r & Hin & Hr).
    apply in_map_iff; exists r; split; auto.
    now rewrite Hr.
  - apply in_or_app; right; now left.
Qed.

Lemma upserted_In_other row l r :
  In r l ->
  Channel.channel_id r <> Channel.channel_id row \/ r = row ->
  In r (upserted row l).
Proof.
  intros Hin Hr; unfold upserted; simpl.
  destruct (existsb _ l).
  - apply in_map_iff; exists r; split; auto.
    destruct (String.eqb (Channel.channel_id r) (Channel.channel_id row))
      eqn:He; auto.
    apply String.eqb_eq in He; destruct Hr as [Hr|Hr]; congruence.
  - apply in_or_app; now left.
Qed.

(** [synced w w']: the channel rows are kept, distinct channel ids stay
    distinct, and nothing but the channel table has changed *)
Definition synced (w w' : World) : Prop :=
  channels_kept (channels (catalog w)) (channels (catalog w'))
  /\ (NoDup (map Channel.channel_id (channels (catalog w))) ->
      NoDup (map Channel.channel_id (channels (catalog w'))))
  /\ videos (catalog w') = videos (catalog w)
  /\ transcripts (catalog w') = transcripts (catalog w)
  /\ processed_content (catalog w') = processed_content (catalog w)
  /\ llm_requests w' = llm_requests w
  /\ ydl_downloads w' = ydl_downloads w.

Lemma synced_refl w : synced w w.
Proof. split; [apply channels_kept_refl | auto 10]. Qed.

Lemma synced_trans w1 w2 w3 : synced w1 w2 -> synced w2 w3 -> synced w1 w3.
Proof.
  intros (K1 & N1 & V1 & T1 & P1 & L1 & Y1) (K2 & N2 & V2 & T2 & P2 & L2 & Y2).
  split; [eapply channels_kept_trans; eauto|].
  split; [auto|].
  repeat split; congruence.
Qed.

Lemma sync_channels_synced E : keeps synced (sync_channels E).
Proof.
  rewrite sync_channels_loop.
  apply (keeps_for_each synced synced_refl synced_trans).
  intros cid w; rewrite sync_channel_eq.
  destruct (String.eqb _ ""); [apply synced_refl|].
  destruct (extract_uploader E _) as [u|]; [|apply synced_refl].
  split; [|split; [|auto 10]]; cbn [snd]; rewrite upsert_channel_channels.
  - now apply upserted_kept.
  - apply upserted_NoDup.
Qed.

Lemma sync_channels_never_raises E : never_raises (sync_channels E).
Proof.
  rewrite sync_channels_loop.
  apply never_raises_for_each, sync_channel_never_raises.
Qed.

(** X6. [sync_channels] returns normally whatever the lookups do; it
    removes no channel row and moves none, leaves active channels active
    and distinct channel ids distinct, and changes nothing but the
    channel table. *)
Theorem sync_channels_keeps_channels E w :
  fst (sync_channels E w) = Return tt
  /\ (forall k r,
        nth_error (channels (catalog w)) k = Some r ->
        exists r',
          nth_error (channels (catalog (snd (sync_channels E w)))) k
          = Some r'
          /\ Channel.channel_id r' = Channel.channel_id r
          /\ (Channel.is_active r = true -> Channel.is_active r' = true))
  /\ (NoDup (map Channel.channel_id (channels (catalog w))) ->
      NoDup (map Channel.channel_id
               (channels (catalog (snd (sync_channels E w))))))
  /\ videos (catalog (snd (sync_channels E w))) = videos (catalog w)
  /\ transcripts (catalog (snd (sync_channels E w)))
     = transcripts (catalog w)
  /\ processed_content (catalog (snd (sync_channels E w)))
     = processed_content (catalog w)
  /\ llm_requests (snd (sync_channels E w)) = llm_requests w
  /\ ydl_downloads (snd (sync_channels E w)) = ydl_downloads w.
Proof.
  split; [apply sync_channels_never_raises | apply sync_channels_synced].
Qed.

(** X7. After [sync_channels], every configured channel id that is not
    blank and whose lookup succeeded has its row in the channel table:
    active, with the channel's URL, and named by what the lookup's answer
    holds under the key [uploader], a text or null; the row is named
    after the id when the answer has no such key. *)
Theorem sync_channels_registers E w channel_id uploader :
  In channel_id (channel_list E) ->
  PyStr.strip channel_id <> "" ->
  extract_uploader E ("https://www.youtube.com/channel/" ++ channel_id)
  = Some uploader ->
  In (registered_row channel_id uploader)
     (channels (catalog (snd (sync_channels E w))))
  /\ Channel.channel_id (registered_row channel_id uploader) = channel_id
  /\ Channel.channel_url (registered_row channel_id uploader)
     = "https://www.youtube.com/channel/" ++ channel_id
  /\ Channel.is_active (registered_row channel_id uploader) = true
  /\ Channel.channel_name (registered_row channel_id uploader)
     = match uploader with
       | None => Some channel_id
       | Some value => value
       end.
Proof.
  intros Hin Hne Hu.
  split; [|destruct uploader; repeat split].
  rewrite sync_channels_loop.
  apply (for_each_establishes
           (fun w0 => In (registered_row channel_id uploader)
                         (channels (catalog w0)))
           (channel_list E) (sync_channel E) channel_id Hin).
  - apply sync_channel_never_raises.
  - intros w0; rewrite sync_channel_eq.
    apply String.eqb_neq in Hne; rewrite Hne, Hu.
    cbn [snd]; rewrite upsert_channel_channels; apply upserted_In.
  - intros cid w0 H0; rewrite sync_channel_eq.
    destruct (String.eqb _ ""); auto.
    destruct (extract_uploader E ("https://www.youtube.com/channel/" ++ cid))
      as [u|] eqn:Hcu; auto.
    cbn [snd]; rewrite upsert_channel_channels.
    apply upserted_In_other; auto.
    destruct (string_dec cid channel_id) as [->|Hd]; [right|left; simpl; auto].
    rewrite Hu in Hcu; now injection Hcu as ->.
Qed.

(** the lookup answers with a null uploader *)
Definition env_null_uploader : Env :=
  {| read_text := read_text env_abc123;
     watched_entries := watched_entries env_abc123;
     create_completion := create_completion env_abc123;
     extract_info := extract_info env_abc123;
     extract_uploader := fun _ => Some (Some None);
     download := download env_abc123;
     strptime_ymd := strptime_ymd env_abc123;
     json_loads := json_loads env_abc123;
     now_isoformat := now_isoformat env_abc123;
     elapsed_ms := elapsed_ms env_abc123;
     channel_list := channel_list env_abc123;
     watched_folder := watched_folder env_abc123;
     max_videos := max_videos env_abc123 |}.

Lemma sync_channels_registers_witness :
  (In (registered_row "abc123" (Some (Some "Chan")))
      (channels (catalog (snd (sync_channels env_abc123
          (world_of (catalog_of_videos [intro_to_systems]))))))
   /\ Channel.channel_name (registered_row "abc123" (Some (Some "Chan")))
      = Some "Chan")
  /\ (In (registered_row "abc123" (Some None))
         (channels (catalog (snd (sync_channels env_null_uploader
             (world_of (catalog_of_videos [intro_to_systems]))))))
      /\ Channel.channel_name (registered_row "abc123" (Some None)) = None).
Proof.
  assert (Hne : PyStr.strip "abc123" <> "") by (vm_compute; discriminate).
  split.
  - destruct (sync_channels_registers env_abc123
                (world_of (catalog_of_videos [intro_to_systems]))
                "abc123" (Some (Some "Chan")) (or_introl eq_refl) Hne eq_refl)
      as (H1 & _ & _ & _ & H2).
    exact (conj H1 H2).
  - destruct (sync_channels_registers env_null_uploader
                (world_of (catalog_of_videos [intro_to_systems]))
                "abc123" (Some None) (or_introl eq_refl) Hne eq_refl)
      as (H1 & _ & _ & _ & H2).
    exact (conj H1 H2).
Defined.

(** ** A run of the acquisition engine *)

(** [grown w w']: video rows were appended, all settled and each for an
    active row of the channel table; the download requests sent are for
    rows among them, at most one for each; nothing else has changed. *)
Definition grown (w w' : World) : Prop :=
  exists new dl,
    videos (catalog w') = (videos (catalog w) ++ new)%list
    /\ ydl_downloads w' = (ydl_downloads w ++ dl)%list
    /\ Forall (fun v => settled v = true) new
    /\ Forall (fun v => exists r,
                 nth_error (channels (catalog w)) (Video.channel_id v) = Some r
                 /\ Channel.is_active r = true) new
    /\ length dl <= length new
    /\ incl dl (map (fun v => watch_url (Video.video_id v)) new)
    /\ channels (catalog w') = channels (catalog w)
    /\ transcripts (catalog w') = transcripts (catalog w)
    /\ processed_content (catalog w') = processed_content (catalog w)
    /\ llm_requests w' = llm_requests w.

Lemma grown_refl w : grown w w.
Proof.
  exists [], []; rewrite !app_nil_r.
  repeat split; auto; intros x [].
Qed.

Lemma grown_trans w1 w2 w3 : grown w1 w2 -> grown w2 w3 -> grown w1 w3.
Proof.
  intros (n1 & d1 & V1 & Y1 & S1 & A1 & L1 & I1 & C1 & T1 & P1 & R1)
         (n2 & d2 & V2 & Y2 & S2 & A2 & L2 & I2 & C2 & T2 & P2 & R2).
  exists (n1 ++ n2)%list, (d1 ++ d2)%list.
  rewrite V2, V1, Y2, Y1, <- !app_assoc, !length_app, map_app.
  rewrite C1 in A2.
  repeat split; try congruence; try lia.
  - now apply Forall_app.
  - now apply Forall_app.
  - intros x Hx; apply in_or_app; apply in_app_or in Hx as [Hx|Hx]; auto.
Qed.

Lemma adds_grown k b w w' r :
  nth_error (channels (catalog w)) k = Some r ->
  Channel.is_active r = true ->
  adds k b w w' -> grown w w'.
Proof.
  intros Hk Ha (new & dl & Hv & Hy & Hs & Hc & _ & H).
  exists new, dl; repeat split; auto; try apply H.
  eapply Forall_impl; [|exact Hc].
  intros v ->; eauto.
Qed.

(** the loop of [run] over the active channels *)
Lemma download_loop_grown E (l : list (nat * Channel.t)) : forall w,
  (forall x, In x l ->
     In x (Table.select Channel.is_active (channels (catalog w)))) ->
  fst (for_each l (fun r => download_channel_videos E
                              (Channel.channel_id (snd r))) w) = Return tt
  /\ grown w (snd (for_each l (fun r => download_channel_videos E
                                          (Channel.channel_id (snd r))) w)).
Proof.
  induction l as [|[j r] l IH]; intros w Hl.
  - split; [reflexivity | apply grown_refl].
  - cbn [for_each]; unfold bind; cbn [snd].
    destruct (download_channel_videos_adds E (Channel.channel_id r) w)
      as [H0 H1].
    assert (G : grown w (snd (download_channel_videos E
                                (Channel.channel_id r) w))).
    { destruct H1 as [->|(k & r' & Hs & Ha)]; [apply grown_refl|].
      destruct (select_In _ _ _ _ (Hl (j, r) (or_introl eq_refl)))
        as [Hj Hact].
      assert (Hin : In (j, r)
                (Table.select
                   (fun r0 => String.eqb (Channel.channel_id r0)
                                         (Channel.channel_id r))
                   (channels (catalog w)))).
      { apply select_In_conv; auto; apply String.eqb_refl. }
      rewrite Hs in Hin; destruct Hin as [Hin|[]].
      injection Hin as -> ->.
      eapply (adds_grown j _ w _ r); eauto. }
    destruct (download_channel_videos E (Channel.channel_id r) w)
      as [[[]|e] w1]; simpl in *; try discriminate.
    assert (Hc : channels (catalog w1) = channels (catalog w)).
    { destruct G as (? & ? & G); apply G. }
    destruct (IH w1) as [I0 I1].
    { intros x Hx; rewrite Hc; apply Hl; now right. }
    split; [exact I0 | eapply grown_trans; eauto].
Qed.

Lemma run_eq E w :
  run E w
  = for_each
      (Table.select Channel.is_active
         (channels (catalog (snd (sync_channels E w)))))
      (fun r => download_channel_videos E (Channel.channel_id (snd r)))
      (snd (sync_channels E w)).
Proof.
  unfold run, bind.
  pose proof (sync_channels_never_raises E w) as H.
  destruct (sync_channels E w) as [[[]|e] w1]; simpl in *; try discriminate.
  reflexivity.
Qed.

Lemma run_grown E w :
  fst (run E w) = Return tt
  /\ synced w (snd (sync_channels E w))
  /\ grown (snd (sync_channels E w)) (snd (run E w)).
Proof.
  rewrite run_eq.
  destruct (download_loop_grown E
              (Table.select Channel.is_active
                 (channels (catalog (snd (sync_channels E w)))))
              (snd (sync_channels E w))) as [H0 H1]; auto.
  split; [exact H0|].
  split; [apply sync_channels_synced | exact H1].
Qed.

Lemma run_frame E w :
  fst (run E w) = Return tt
  /\ transcripts (catalog (snd (run E w))) = transcripts (catalog w)
  /\ processed_content (catalog (snd (run E w)))
     = processed_content (catalog w)
  /\ llm_requests (snd (run E w)) = llm_requests w.
Proof.
  destruct (run_grown E w) as (H0 & (_ & _ & _ & T1 & P1 & L1 & _) & G).
  destruct G as (new & dl & _ & _ & _ & _ & _ & _ & _ & T2 & P2 & L2).
  repeat split; congruence.
Qed.

(** X8. A run of the acquisition engine returns normally whatever the
    channel lookups, the listings, the date parser and the downloads do,
    and it leaves the transcripts, the artifacts and the requests to the
    inference service as they were. *)
Theorem run_never_raises E w :
  fst (run E w) = Return tt
  /\ transcripts (catalog (snd (run E w))) = transcripts (catalog w)
  /\ processed_content (catalog (snd (run E w)))
     = processed_content (catalog w)
  /\ llm_requests (snd (run E w)) = llm_requests w.
Proof.
  destruct (run_grown E w) as (H0 & Hsync & G).
  destruct Hsync as (_ & _ & _ & T1 & P1 & L1 & _).
  destruct G as (new & dl & _ & _ & _ & _ & _ & _ & _ & T2 & P2 & L2).
  split; [exact H0|].
  split; [now rewrite T2 | split; [now rewrite P2 | now rewrite L2]].
Qed.

(** X9. A run changes no row that the video table held: the table after
    the run is the table before it followed by the rows of the run.  Each
    of these rows is settled, completed with its download time and file
    path or failed without them, none is left downloading; and every
    download request of the run is for one of these rows, at most one
    request for each. *)
Theorem run_appends_settled_rows E w :
  exists new dl,
    videos (catalog (snd (run E w))) = (videos (catalog w) ++ new)%list
    /\ ydl_downloads (snd (run E w)) = (ydl_downloads w ++ dl)%list
    /\ Forall (fun v => settled v = true) new
    /\ Forall (fun v => Video.download_status v <> downloading
                        /\ Video.download_status v <> pending) new
    /\ incl dl (map (fun v => watch_url (Video.video_id v)) new)
    /\ length dl <= length new.
Proof.
  destruct (run_grown E w) as (_ & (_ & _ & V1 & _ & _ & _ & Y1) & G).
  destruct G as (new & dl & V2 & Y2 & S2 & _ & L2 & I2 & _).
  exists new, dl; rewrite V2, Y2, V1, Y1; repeat split; auto.
  eapply Forall_impl; [|exact S2].
  intros v; unfold settled.
  destruct (Video.download_status v); try discriminate;
    split; discriminate.
Qed.

(** X10. Every row that a run appends to the video table refers, by its
    channel key, to a row of the channel table, and that row is active. *)
Theorem run_rows_reference_active_channel E w :
  exists new,
    videos (catalog (snd (run E w))) = (videos (catalog w) ++ new)%list
    /\ Forall (fun v => exists r,
                 nth_error (channels (catalog (snd (run E w))))
                           (Video.channel_id v) = Some r
                 /\ Channel.is_active r = true) new.
Proof.
  destruct (run_grown E w) as (_ & (_ & _ & V1 & _) & G).
  destruct G as (new & dl & V2 & _ & _ & A2 & _ & _ & C2 & _).
  exists new; rewrite V2, V1, C2; auto.
Qed.

(** X11. A run sends no download request for a video that the catalog
    held before it: every request is for the URL of a row the run has
    appended, and the external identifier of that row was not in the
    video table. *)
Theorem run_downloads_only_new E w url :
  In url (ydl_downloads (snd (run E w))) ->
  In url (ydl_downloads w)
  \/ exists v,
       In v (videos (catalog (snd (run E w))))
       /\ url = watch_url (Video.video_id v)
       /\ ~ In (Video.video_id v) (video_ids w).
Proof.
  destruct (run_grown E w) as (_ & (_ & _ & V1 & _ & _ & _ & Y1) & G).
  destruct G as (new & dl & V2 & Y2 & _ & _ & _ & I2 & _).
  destruct (run_acquired E w) as ((ids & Hi & _ & Hn) & _).
  rewrite Y2, Y1, V2, V1.
  intros Hu; apply in_app_or in Hu as [Hu|Hu]; [now left|right].
  apply I2, in_map_iff in Hu as (v & Hv & Hin).
  exists v; split; [apply in_or_app; now right|].
  split; [now symmetry|].
  assert (Hids : ids = map Video.video_id new).
  { unfold video_ids in Hi; rewrite V2, V1, map_app in Hi.
    now apply app_inv_head in Hi. }
  apply Hn; rewrite Hids; now apply in_map.
Qed.

Lemma run_downloads_only_new_witness :
  In (watch_url "v2") (ydl_downloads world_abc123)
  \/ exists v,
       In v (videos (catalog (snd (run env_abc123 world_abc123))))
       /\ watch_url "v2" = watch_url (Video.video_id v)
       /\ ~ In (Video.video_id v) (video_ids world_abc123).
Proof.
  apply (run_downloads_only_new env_abc123 world_abc123 (watch_url "v2")).
  vm_compute; now left.
Defined.

(** ** The transcript processor: what its entry points add *)

(** [processed w w']: transcripts, artifacts and inference requests were
    appended, four requests and at most four artifacts for each
    transcript; channels, videos and download requests are the same. *)
Definition processed (w w' : World) : Prop :=
  (exists ts ps rs,
      transcripts (catalog w') = (transcripts (catalog w) ++ ts)%list
      /\ processed_content (catalog w')
         = (processed_content (catalog w) ++ ps)%list
      /\ llm_requests w' = (llm_requests w ++ rs)%list
      /\ length rs = 4 * length ts
      /\ length ps <= 4 * length ts)
  /\ channels (catalog w') = channels (catalog w)
  /\ videos (catalog w') = videos (catalog w)
  /\ ydl_downloads w' = ydl_downloads w.

Lemma processed_refl w : processed w w.
Proof.
  split; [|auto].
  exists [], [], []; rewrite !app_nil_r; repeat split; auto.
Qed.

Lemma processed_trans w1 w2 w3 :
  processed w1 w2 -> processed w2 w3 -> processed w1 w3.
Proof.
  intros ((t1 & p1 & r1 & T1 & P1 & R1 & L1 & B1) & C1 & V1 & Y1)
         ((t2 & p2 & r2 & T2 & P2 & R2 & L2 & B2) & C2 & V2 & Y2).
  split; [|repeat split; congruence].
  exists (t1 ++ t2)%list, (p1 ++ p2)%list, (r1 ++ r2)%list.
  rewrite T2, T1, P2, P1, R2, R1, <- !app_assoc, !length_app.
  repeat split; lia.
Qed.

Lemma process_transcript_processed E path :
  keeps processed (process_transcript E path).
Proof.
  intros w; unfold process_transcript, try_except.
  rewrite process_transcript_try_eq.
  destruct (read_text E path) as [text|]; [|apply processed_refl].
  destruct (find_video_by_filename (catalog w) path) as [[key v]|];
    [|apply processed_refl].
  set (w1 := snd (insert_transcript (transcript_row E key text) w)).
  destruct (process_with_ai_spec E (length (transcripts (catalog w))) text w1)
    as (H0 & Hl & Hy & Hc & Hv & Ht & rows & Hp & Hm & _).
  assert (Hlen : length rows <= 4).
  { rewrite <- (length_map ProcessedContent.processing_type), Hm.
    apply (filter_length_le _ process_types). }
  destruct (process_with_ai E (length (transcripts (catalog w))) text w1)
    as [[[]|e] w2]; simpl in *; try discriminate.
  split; [|rewrite Hc, Hv, Hy; auto].
  exists [transcript_row E key text], rows, (map (request text) process_types).
  rewrite Ht, Hp, Hl; repeat split; auto.
Qed.

(** one turn of the loop of [scan_existing_transcripts] *)
Definition scan_transcript (E : Env) (transcript_file : string) : M unit :=
  c <- get_catalog ;;
  match find_video_by_filename c transcript_file with
  | Some (video_key, video) =>
      let existing :=
        Table.select (fun t => Nat.eqb (Transcript.video_id t) video_key)
                     (transcripts c) in
      match existing with
      | [] => process_transcript E transcript_file
      | _ :: _ => ret tt
      end
  | None => ret tt
  end.

Lemma scan_existing_transcripts_loop E :
  scan_existing_transcripts E
  = for_each (rglob_transcripts E) (scan_transcript E).
Proof. reflexivity. Qed.

Lemma scan_transcript_eq E path w :
  scan_transcript E path w
  = match find_video_by_filename (catalog w) path with
    | Some (key, _) =>
        match Table.select (fun t => Nat.eqb (Transcript.video_id t) key)
                           (transcripts (catalog w)) with
        | [] => process_transcript E path w
        | _ :: _ => (Return tt, w)
        end
    | None => (Return tt, w)
    end.
Proof.
  unfold scan_transcript, bind, get_catalog.
  destruct (find_video_by_filename (catalog w) path) as [[key v]|];
    [|reflexivity].
  destruct (Table.select _ (transcripts (catalog w))); reflexivity.
Qed.

Lemma scan_transcript_never_raises E path :
  never_raises (scan_transcript E path).
Proof.
  intros w; rewrite scan_transcript_eq.
  destruct (find_video_by_filename (catalog w) path) as [[key v]|];
    [|reflexivity].
  destruct (Table.select _ (transcripts (catalog w))); [|reflexivity].
  apply process_transcript_spec.
Qed.

Lemma scan_transcript_processed E path :
  keeps processed (scan_transcript E path).
Proof.
  intros w; rewrite scan_transcript_eq.
  destruct (find_video_by_filename (catalog w) path) as [[key v]|];
    [|apply processed_refl].
  destruct (Table.select _ (transcripts (catalog w)));
    [apply process_transcript_processed | apply processed_refl].
Qed.

Lemma scan_processed E : keeps processed (scan_existing_transcripts E).
Proof.
  rewrite scan_existing_transcripts_loop.
  apply (keeps_for_each processed processed_refl processed_trans).
  apply scan_transcript_processed.
Qed.

Lemma scan_never_raises E : never_raises (scan_existing_transcripts E).
Proof.
  rewrite scan_existing_transcripts_loop.
  apply never_raises_for_each, scan_transcript_never_raises.
Qed.

Lemma on_created_processed E event : keeps processed (on_created E event).
Proof.
  intros w; unfold on_created.
  destruct (_ && _);
    [apply process_transcript_processed | apply processed_refl].
Qed.

Lemma on_created_never_raises E event : never_raises (on_created E event).
Proof.
  intros w; unfold on_created.
  destruct (_ && _); [apply process_transcript_spec | reflexivity].
Qed.

(** [TranscriptProcessor.run]: the start-up scan, then the creation events
    that the observer delivers to the handler, in their order *)
Definition processor_run (E : Env) (events : list FileEvent) : M unit :=
  scan_existing_transcripts E ;;;
  for_each events (on_created E).

(** X12. The transcript processor, from its start-up scan through any
    sequence of creation events, returns normally at every step and
    leaves the channel table, the video table and the download requests
    as they were. *)
Theorem processor_run_frame E events w :
  fst (processor_run E events w) = Return tt
  /\ channels (catalog (snd (processor_run E events w)))
     = channels (catalog w)
  /\ videos (catalog (snd (processor_run E events w))) = videos (catalog w)
  /\ ydl_downloads (snd (processor_run E events w)) = ydl_downloads w.
Proof.
  assert (K : keeps processed (processor_run E events)).
  { apply (keeps_bind processed processed_trans);
      [apply scan_processed|].
    intros _; apply (keeps_for_each processed processed_refl processed_trans).
    apply on_created_processed. }
  split; [|apply K].
  unfold processor_run, bind.
  pose proof (scan_never_raises E w) as H.
  destruct (scan_existing_transcripts E w) as [[[]|e] w1]; simpl in *;
    try discriminate.
  apply never_raises_for_each, on_created_never_raises.
Qed.

(** ** Executions: inference requests and artifacts per transcript *)

(** [accounted w w']: transcripts, artifacts and inference requests were
    appended, four requests and at most four artifacts for each
    transcript *)
Definition accounted (w w' : World) : Prop :=
  exists ts ps rs,
    transcripts (catalog w') = (transcripts (catalog w) ++ ts)%list
    /\ processed_content (catalog w')
       = (processed_content (catalog w) ++ ps)%list
    /\ llm_requests w' = (llm_requests w ++ rs)%list
    /\ length rs = 4 * length ts
    /\ length ps <= 4 * length ts.

Lemma accounted_refl w : accounted w w.
Proof. apply processed_refl. Qed.

Lemma accounted_trans w1 w2 w3 :
  accounted w1 w2 -> accounted w2 w3 -> accounted w1 w3.
Proof.
  intros (t1 & p1 & r1 & T1 & P1 & R1 & L1 & B1)
         (t2 & p2 & r2 & T2 & P2 & R2 & L2 & B2).
  exists (t1 ++ t2)%list, (p1 ++ p2)%list, (r1 ++ r2)%list.
  rewrite T2, T1, P2, P1, R2, R1, <- !app_assoc, !length_app.
  repeat split; lia.
Qed.

Lemma perform_accounted E a w : accounted w (snd (perform E a w)).
Proof.
  destruct a; simpl.
  - destruct (run_frame E w) as (_ & T & P & L).
    exists [], [], []; rewrite !app_nil_r; repeat split; auto.
  - apply scan_processed.
  - apply on_created_processed.
Qed.

(** X13. In every execution (acquisition runs, start-up scans and
    creation events in any order, each in the environment of its time)
    the transcript table, the artifact table and the requests to the
    inference service only grow at their ends; for every Transcript row
    inserted exactly four requests are sent to the inference service,
    whether or not they succeed, and at most four Artifact rows are
    inserted. *)
Theorem execution_accounting steps w :
  exists ts ps rs,
    transcripts (catalog (execute steps w))
    = (transcripts (catalog w) ++ ts)%list
    /\ processed_content (catalog (execute steps w))
       = (processed_content (catalog w) ++ ps)%list
    /\ llm_requests (execute steps w) = (llm_requests w ++ rs)%list
    /\ length rs = 4 * length ts
    /\ length ps <= 4 * length ts.
Proof.
  change (accounted w (execute steps w)).
  revert w; induction steps as [|[E a] steps IH]; intros w; simpl.
  - apply accounted_refl.
  - eapply accounted_trans; [apply perform_accounted | apply IH].
Qed.

(** ** The start-up scan *)

Lemma find_video_by_filename_videos c c' path :
  videos c' = videos c ->
  find_video_by_filename c' path = find_video_by_filename c path.
Proof. intros H; unfold find_video_by_filename; now rewrite H. Qed.

Lemma select_video_key_empty key (l : list Transcript.t) :
  Table.select (fun t => Nat.eqb (Transcript.video_id t) key) l = [] ->
  ~ In key (map Transcript.video_id l).
Proof.
  intros Hs Hin; apply in_map_iff in Hin as (t & Ht & Hin).
  pose proof (select_empty_inv _ _ Hs t Hin) as H; simpl in H.
  rewrite Ht, Nat.eqb_refl in H; discriminate.
Qed.

Lemma select_video_key_nonempty key (l : list Transcript.t) r rs :
  Table.select (fun t => Nat.eqb (Transcript.video_id t) key) l = r :: rs ->
  In key (map Transcript.video_id l).
Proof.
  intros Hs.
  destruct r as [k t].
  destruct (select_In (fun t => Nat.eqb (Transcript.video_id t) key) l k t)
    as [Hn Hp]; [rewrite Hs; now left|].
  apply Nat.eqb_eq in Hp; rewrite <- Hp.
  apply in_map; eapply nth_error_In; eauto.
Qed.

(** X14. The start-up scan keeps the rule of one Transcript for a Video:
    when no two Transcript rows are for the same Video before the scan,
    none are after it, however many artifacts of the watched folder
    resolve to the same Video. *)
Theorem scan_one_transcript_per_video E w :
  NoDup (map Transcript.video_id (transcripts (catalog w))) ->
  NoDup (map Transcript.video_id
           (transcripts (catalog (snd (scan_existing_transcripts E w))))).
Proof.
  rewrite scan_existing_transcripts_loop.
  apply (for_each_invariant
           (fun w0 => NoDup (map Transcript.video_id
                               (transcripts (catalog w0))))).
  clear w; intros path w Hw; rewrite scan_transcript_eq.
  destruct (find_video_by_filename (catalog w) path) as [[key v]|] eqn:Hf;
    [|exact Hw].
  destruct (Table.select _ (transcripts (catalog w))) eqn:Hs; [|exact Hw].
  apply select_video_key_empty in Hs.
  destruct (process_transcript_spec E path w) as [_ H].
  rewrite Hf in H.
  destruct (read_text E path) as [text|]; [|now rewrite H].
  destruct H as (Ht & _).
  rewrite Ht, map_app; apply NoDup_app; auto.
  - constructor; [intros [] | constructor].
  - intros x Hx [<-|[]]; now apply Hs.
Qed.

(** two artifacts in the watched folder resolve to the same Video *)
Definition env_two_artifacts : Env :=
  {| read_text := fun _ => Some "so today we look at page tables";
     watched_entries :=
       ["/watched/Chan/20240101_Intro_to_Systems_transcript.txt";
        "/watched/Chan/20240102_intro_to_systems_transcript.txt"];
     create_completion := create_completion env_chapters_down;
     extract_info := fun _ => None;
     extract_uploader := fun _ => None;
     download := fun _ => true;
     strptime_ymd := fun _ => None;
     json_loads := fun _ => None;
     now_isoformat := "2024-01-02T03:04:05";
     elapsed_ms := fun _ => 250%Z;
     channel_list := [];
     watched_folder := "/watched";
     max_videos := 10 |}.

Lemma scan_one_transcript_per_video_witness :
  NoDup (map Transcript.video_id
           (transcripts
              (catalog
                 (snd (scan_existing_transcripts env_two_artifacts
                         (world_of (catalog_of_videos [intro_to_systems]))))))).
Proof.
  apply (scan_one_transcript_per_video env_two_artifacts
           (world_of (catalog_of_videos [intro_to_systems]))).
  simpl; constructor.
Defined.

(** [scanned E w p]: the scan has nothing to do for the artifact [p] in
    the world [w]: it resolves to no Video, or it cannot be read, or its
    Video has a Transcript *)
Definition scanned (E : Env) (w : World) (p : string) : Prop :=
  match find_video_by_filename (catalog w) p with
  | None => True
  | Some (key, _) =>
      read_text E p = None
      \/ In key (map Transcript.video_id (transcripts (catalog w)))
  end.

Lemma scanned_noop E w p :
  scanned E w p -> scan_transcript E p w = (Return tt, w).
Proof.
  unfold scanned; rewrite scan_transcript_eq.
  destruct (find_video_by_filename (catalog w) p) as [[key v]|] eqn:Hf;
    [|reflexivity].
  destruct (Table.select _ (transcripts (catalog w))) eqn:Hs;
    [|reflexivity].
  apply select_video_key_empty in Hs.
  intros [Hr|Hin]; [|now destruct Hs].
  destruct (process_transcript_spec E p w) as [H0 H].
  rewrite Hr in H.
  destruct (process_transcript E p w) as [o w1]; simpl in *; congruence.
Qed.

Lemma scanned_processed E w w' p :
  processed w w' -> scanned E w p -> scanned E w' p.
Proof.
  intros ((ts & ps & rs & Ht & _) & _ & Hv & _); unfold scanned.
  rewrite (find_video_by_filename_videos (catalog w) (catalog w') p Hv).
  destruct (find_video_by_filename (catalog w) p) as [[key v]|]; auto.
  intros [H|H]; [now left | right].
  rewrite Ht, map_app; apply in_or_app; now left.
Qed.

Lemma scan_transcript_scanned E w p :
  scanned E (snd (scan_transcript E p w)) p.
Proof.
  pose proof (scan_transcript_processed E p w) as Hp.
  destruct Hp as (_ & _ & Hv & _).
  unfold scanned.
  rewrite (find_video_by_filename_videos _ _ p Hv).
  rewrite scan_transcript_eq.
  destruct (find_video_by_filename (catalog w) p) as [[key v]|] eqn:Hf;
    [|exact I].
  destruct (Table.select _ (transcripts (catalog w))) as [|r rs] eqn:Hs.
  - destruct (process_transcript_spec E p w) as [_ H].
    rewrite Hf in H.
    destruct (read_text E p) as [text|]; [|now left].
    destruct H as (Ht & _); right.
    rewrite Ht, map_app; apply in_or_app; right; now left.
  - right; eapply select_video_key_nonempty; eauto.
Qed.

Lemma scan_loop_scanned E (l : list string) : forall w,
  Forall (scanned E (snd (for_each l (scan_transcript E) w))) l.
Proof.
  induction l as [|p l IH]; intros w; [constructor|].
  cbn [for_each]; unfold bind.
  pose proof (scan_transcript_never_raises E p w) as H0.
  pose proof (scan_transcript_scanned E w p) as H1.
  destruct (scan_transcript E p w) as [[[]|e] w1]; simpl in *;
    try discriminate.
  constructor; [|apply IH].
  eapply scanned_processed; [|exact H1].
  apply (keeps_for_each processed processed_refl processed_trans).
  apply scan_transcript_processed.
Qed.

Lemma scan_loop_noop E (l : list string) w :
  Forall (scanned E w) l ->
  for_each l (scan_transcript E) w = (Return tt, w).
Proof.
  induction 1 as [|p l Hp _ IH]; [reflexivity|].
  cbn [for_each]; unfold bind.
  now rewrite (scanned_noop E w p Hp).
Qed.

(** X15. Scanning again changes nothing: a second start-up scan of the
    same watched folder, right after a first one, inserts no row and
    sends no request to the inference service. *)
Theorem scan_twice_is_scan_once E w :
  scan_existing_transcripts E (snd (scan_existing_transcripts E w))
  = (Return tt, snd (scan_existing_transcripts E w)).
Proof.
  rewrite scan_existing_transcripts_loop.
  apply scan_loop_noop, scan_loop_scanned.
Qed.

(** ** Responses of the inference service *)

(** X16. A completion that comes without any choice makes its task raise
    [IndexError], and a completion whose message has no content makes the
    keywords task raise [AttributeError]; in both cases the task inserts
    nothing.  A message without content is stored as a null text by the
    summary and chapters tasks and as a null raw text by the insights
    task. *)
Theorem derive_malformed_response E tid text pt w r :
  create_completion E (models pt)
    (format_transcript (prompts pt) (PyStr.take context_limit text))
  = Some r ->
  (choices r = [] ->
   fst (derive E tid text pt w) = Raise IndexError
   /\ catalog (snd (derive E tid text pt w)) = catalog w)
  /\ (forall more, choices r = None :: more ->
      match pt with
      | keywords =>
          fst (derive E tid text pt w) = Raise AttributeError
          /\ catalog (snd (derive E tid text pt w)) = catalog w
      | _ =>
          fst (derive E tid text pt w) = Return tt
          /\ exists row,
               processed_content (catalog (snd (derive E tid text pt w)))
               = (processed_content (catalog w) ++ [row])%list
               /\ ProcessedContent.processing_type row = pt
               /\ ProcessedContent.content row
                  = JObj [(match pt with insights => "raw" | _ => "content"
                           end, JNull)]
      end).
Proof.
  intros Hr; split.
  - intros Hc; unfold derive, bind, chat_completions_create.
    rewrite Hr; simpl; rewrite Hc; simpl.
    split; [reflexivity | now destruct w as [[]]].
  - intros more Hc; unfold derive, bind, chat_completions_create.
    rewrite Hr; simpl; rewrite Hc; simpl.
    destruct pt; simpl.
    + split; [reflexivity | eexists; repeat split].
    + split; [reflexivity | eexists; repeat split].
    + split; [reflexivity | now destruct w as [[]]].
    + split; [reflexivity | eexists; repeat split].
Qed.

(** the inference service answers without any choice *)
Definition env_no_choice : Env :=
  {| read_text := fun _ => Some "so today we look at page tables";
     watched_entries := [];
     create_completion := fun _ _ =>
       Some {| choices := []; total_tokens := None |};
     extract_info := fun _ => None;
     extract_uploader := fun _ => None;
     download := fun _ => true;
     strptime_ymd := fun _ => None;
     json_loads := fun _ => None;
     now_isoformat := "2024-01-02T03:04:05";
     elapsed_ms := fun _ => 250%Z;
     channel_list := [];
     watched_folder := "/watched";
     max_videos := 10 |}.

Lemma derive_malformed_response_witness :
  fst (derive env_no_choice 0 "page tables" keywords
         (world_of (catalog_of_videos [intro_to_systems])))
  = Raise IndexError
  /\ catalog (snd (derive env_no_choice 0 "page tables" keywords
                     (world_of (catalog_of_videos [intro_to_systems]))))
     = catalog_of_videos [intro_to_systems].
Proof.
  apply (proj1 (derive_malformed_response env_no_choice 0 "page tables"
                  keywords (world_of (catalog_of_videos [intro_to_systems]))
                  {| choices := []; total_tokens := None |} eq_refl)).
  reflexivity.
Defined.

(** ** The shape of the artifact rows *)

(** an artifact row records the model of its processing type; a keywords
    artifact holds a list of texts under the key [keywords], a summary or
    chapters artifact a text (or null) under the key [content] *)
Definition artifact_ok (r : ProcessedContent.t) : Prop :=
  ProcessedContent.model_used r = models (ProcessedContent.processing_type r)
  /\ match ProcessedContent.processing_type r with
     | keywords =>
         exists ks,
           ProcessedContent.content r
           = JObj [("keywords", JArr (map JStr ks))]
     | insights => True
     | _ =>
         exists o,
           ProcessedContent.content r = JObj [("content", opt_str o)]
     end.

Definition artifacts_ok (w : World) : Prop :=
  Forall artifact_ok (processed_content (catalog w)).

(** [keeps_ok m]: [m] keeps the artifact table in shape *)
Definition keeps_ok {A} (m : M A) : Prop :=
  keeps (fun w w' => artifacts_ok w -> artifacts_ok w') m.

Lemma ok_refl w : artifacts_ok w -> artifacts_ok w.
Proof. auto. Qed.

Lemma ok_trans (w1 w2 w3 : World) :
  (artifacts_ok w1 -> artifacts_ok w2) ->
  (artifacts_ok w2 -> artifacts_ok w3) ->
  artifacts_ok w1 -> artifacts_ok w3.
Proof. auto. Qed.

Lemma derive_ok E tid text pt : keeps_ok (derive E tid text pt).
Proof.
  intros w Hw; unfold derive, bind, chat_completions_create.
  destruct (create_completion E (models pt) _) as [r|]; simpl; [|exact Hw].
  destruct (choices r) as [|m l]; simpl; [exact Hw|].
  unfold artifacts_ok in *.
  destruct pt; simpl.
  - apply Forall_app; split; [exact Hw|].
    constructor; [|constructor]; split; [reflexivity | simpl; eauto].
  - apply Forall_app; split; [exact Hw|].
    constructor; [|constructor]; split; [reflexivity | simpl; eauto].
  - destruct m as [c|]; simpl; [|exact Hw].
    apply Forall_app; split; [exact Hw|].
    constructor; [|constructor]; split; [reflexivity | simpl].
    exists (map PyStr.strip (PyStr.split "," c)); now rewrite map_map.
  - destruct m as [c|]; simpl; [destruct (json_loads E c); simpl|];
      (apply Forall_app; split; [exact Hw|]);
      (constructor; [|constructor]); split; reflexivity || exact I.
Qed.

Lemma process_with_ai_ok E tid text : keeps_ok (process_with_ai E tid text).
Proof.
  apply (keeps_for_each _ ok_refl ok_trans); intros pt.
  apply (keeps_try_except _ ok_trans); [apply derive_ok|].
  intros _; apply keeps_ret; exact ok_refl.
Qed.

Lemma process_transcript_ok E path : keeps_ok (process_transcript E path).
Proof.
  intros w Hw; unfold process_transcript, try_except.
  rewrite process_transcript_try_eq.
  destruct (read_text E path) as [text|]; [|exact Hw].
  destruct (find_video_by_filename (catalog w) path) as [[key v]|];
    [|exact Hw].
  pose proof (process_with_ai_ok E (length (transcripts (catalog w))) text
                (snd (insert_transcript (transcript_row E key text) w)) Hw)
    as H.
  destruct (process_with_ai E _ text _) as [[[]|e] w2]; exact H.
Qed.

Lemma perform_ok E a : keeps_ok (perform E a).
Proof.
  destruct a; simpl.
  - intros w Hw; unfold artifacts_ok.
    destruct (run_frame E w) as (_ & _ & -> & _); exact Hw.
  - rewrite scan_existing_transcripts_loop.
    apply (keeps_for_each _ ok_refl ok_trans); intros p w.
    rewrite scan_transcript_eq.
    destruct (find_video_by_filename (catalog w) p) as [[key v]|]; auto.
    destruct (Table.select _ (transcripts (catalog w))); auto.
    apply process_transcript_ok.
  - intros w; unfold on_created.
    destruct (_ && _); [apply process_transcript_ok | auto].
Qed.

(** X17. In every execution that starts from an artifact table in shape,
    the artifact table stays in shape: each row records the model that
    the model table gives for its processing type, a keywords row holds a
    list of texts under the key keywords, and a summary or chapters row
    holds a text under the key content. *)
Theorem artifacts_stay_in_shape steps w :
  Forall artifact_ok (processed_content (catalog w)) ->
  Forall artifact_ok (processed_content (catalog (execute steps w))).
Proof.
  revert w; induction steps as [|[E a] steps IH]; intros w Hw; simpl; auto.
  apply IH, (perform_ok E a w), Hw.
Qed.

Lemma artifacts_stay_in_shape_witness :
  Forall artifact_ok
    (processed_content
       (catalog
          (execute [(env_watch, ScanExisting);
                    (env_watch,
                     Created {| is_directory := false;
                                src_path := artifact_path |})]
                   (world_of (catalog_of_videos [intro_to_systems]))))).
Proof.
  apply (artifacts_stay_in_shape
           [(env_watch, ScanExisting);
            (env_watch,
             Created {| is_directory := false; src_path := artifact_path |})]
           (world_of (catalog_of_videos [intro_to_systems]))).
  constructor.
Defined.

(** ** From the name of a downloaded file to its Video *)


Lemma rev_acc_app s acc : PyStr.rev_acc s acc = PyStr.rev s ++ acc.
Proof.
  unfold PyStr.rev; revert acc; induction s as [|a s IH]; intros acc; simpl.
  - reflexivity.
  - rewrite (IH (String a acc)), (IH (String a "")), append_assoc.
    reflexivity.
Qed.

Lemma rev_cons a s : PyStr.rev (String a s) = PyStr.rev s ++ String a "".
Proof. unfold PyStr.rev at 1; simpl; apply rev_acc_app. Qed.

Lemma split_go_no_sep sep cur s :
  PyStr.contains_char sep s = false ->
  PyStr.split_go sep cur s = [PyStr.rev cur ++ s].
Proof.
  revert cur; induction s as [|a s IH]; intros cur; simpl.
  - now rewrite append_empty_r.
  - intros H; apply orb_false_iff in H as [Ha Hs].
    rewrite Ha, IH, rev_cons, append_assoc by exact Hs; reflexivity.
Qed.

Lemma split_go_last sep cur s n :
  PyStr.contains_char sep n = false ->
  exists l, PyStr.split_go sep cur (s ++ String sep n) = (l ++ [n])%list.
Proof.
  intros Hn; revert cur; induction s as [|a s IH]; intros cur; simpl.
  - rewrite Ascii.eqb_refl, (split_go_no_sep sep "" n Hn).
    exists [PyStr.rev cur]; reflexivity.
  - destruct (Ascii.eqb a sep).
    + destruct (IH "") as [l ->]; exists (PyStr.rev cur :: l); reflexivity.
    + apply IH.
Qed.

(** The name of a path is what follows its last slash. *)
Lemma name_after_slash dir n :
  PyStr.contains_char PyPath.slash n = false ->
  n <> "" -> n <> "." ->
  PyPath.name (dir ++ String PyPath.slash n) = n.
Proof.
  intros Hn H1 H2; unfold PyPath.name, PyPath.parts, PyStr.split.
  destruct (split_go_last PyPath.slash "" dir n Hn) as [l ->].
  rewrite filter_app; simpl.
  apply String.eqb_neq in H1, H2; rewrite H1, H2; simpl.
  apply last_last.
Qed.
















(** ** Configured channel ids that are blank *)

(** [os.getenv('CHANNEL_LIST', '').split(',')] *)
Definition channel_list_of (value : option string) : list string :=
  PyStr.split "," (get_or value "").

(** X19. Configured channel ids that are empty or all white space are
    passed over: when every configured id is, as with a channel list that
    is not set, whose only item is the empty id, [sync_channels] looks
    nothing up and leaves the world as it was. *)
Theorem sync_channels_skips_blank E w :
  Forall (fun channel_id => PyStr.strip channel_id = "") (channel_list E) ->
  sync_channels E w = (Return tt, w).
Proof.
  rewrite sync_channels_loop.
  induction 1 as [|cid l Hc _ IH]; [reflexivity|].
  cbn [for_each]; unfold bind.
  now rewrite sync_channel_eq, Hc.
Qed.

(** the configuration with no channel list set *)
Definition env_unset : Env :=
  {| read_text := fun _ => None;
     watched_entries := [];
     create_completion := fun _ _ => None;
     extract_info := fun _ => None;
     extract_uploader := fun _ => Some None;
     download := fun _ => true;
     strptime_ymd := fun _ => None;
     json_loads := fun _ => None;
     now_isoformat := "2024-01-02T03:04:05";
     elapsed_ms := fun _ => 0%Z;
     channel_list := channel_list_of None;
     watched_folder := "";
     max_videos := 10 |}.

Lemma sync_channels_skips_blank_witness :
  sync_channels env_unset world_abc123 = (Return tt, world_abc123).
Proof.
  apply (sync_channels_skips_blank env_unset world_abc123).
  constructor; [reflexivity | constructor].
Defined.

(** ** The two ways into [process_transcript] accept the same names *)

Lemma rev_app s t : PyStr.rev (s ++ t) = PyStr.rev t ++ PyStr.rev s.
Proof.
  induction s as [|a s IH].
  - now rewrite append_empty_r.
  - change (String a s ++ t) with (String a (s ++ t)).
    now rewrite !rev_cons, IH, append_assoc.
Qed.

Lemma startswith_before c x a b :
  PyStr.contains_char c x = false ->
  PyStr.startswith x (a ++ String c b) = PyStr.startswith x a.
Proof.
  revert a; induction x as [|h x IH]; intros a; [reflexivity|].
  simpl; intros H; apply orb_false_iff in H as [Hh Hx].
  destruct a as [|k a]; simpl.
  - rewrite Hh; reflexivity.
  - now rewrite IH.
Qed.

Lemma endswith_after_slash suffix dir n :
  PyStr.contains_char PyPath.slash (PyStr.rev suffix) = false ->
  PyStr.endswith suffix (dir ++ String PyPath.slash n)
  = PyStr.endswith suffix n.
Proof.
  intros H; unfold PyStr.endswith.
  change (dir ++ String PyPath.slash n)
    with (dir ++ String PyPath.slash "" ++ n).
  rewrite <- append_assoc, rev_app, rev_app.
  change (PyStr.rev (String PyPath.slash "")) with (String PyPath.slash "").
  change (PyStr.rev n ++ String PyPath.slash "" ++ PyStr.rev dir)
    with (PyStr.rev n ++ String PyPath.slash (PyStr.rev dir)).
  now apply startswith_before.
Qed.

(** X20. For a path whose last component is a file name, the test of the
    creation handler, on the whole path, and the pattern of the start-up
    scan, on the last component, agree: a file is handed to
    [process_transcript] by a creation event exactly when the scan would
    pick it up from the watched folder. *)
Theorem handler_and_scan_accept_the_same_names E dir n :
  PyStr.contains_char PyPath.slash n = false ->
  n <> "" -> n <> "." ->
  let path := dir ++ "/" ++ n in
  PyStr.endswith "_transcript.txt" path
  = PyStr.endswith "_transcript.txt" (PyPath.name path)
  /\ on_created E {| is_directory := false; src_path := path |}
     = (if PyStr.endswith "_transcript.txt" (PyPath.name path)
        then process_transcript E path else ret tt)
  /\ (In path (rglob_transcripts E)
      <-> In path (watched_entries E)
          /\ PyStr.endswith "_transcript.txt" path = true).
Proof.
  intros Hn H1 H2 path.
  assert (Hp : PyStr.endswith "_transcript.txt" path
               = PyStr.endswith "_transcript.txt" (PyPath.name path)).
  { subst path.
    change (dir ++ "/" ++ n) with (dir ++ String PyPath.slash n).
    rewrite name_after_slash by assumption.
    now apply endswith_after_slash. }
  split; [exact Hp|split].
  - unfold on_created; cbn [is_directory src_path negb andb].
    now rewrite Hp.
  - unfold rglob_transcripts; rewrite filter_In, Hp; reflexivity.
Qed.

Lemma handler_and_scan_accept_the_same_names_witness :
  In artifact_path (rglob_transcripts env_watch)
  <-> In artifact_path (watched_entries env_watch)
      /\ PyStr.endswith "_transcript.txt" artifact_path = true.
Proof.
  assert (H1 : "20240101_Intro_to_Systems_transcript.txt" <> "")
    by discriminate.
  assert (H2 : "20240101_Intro_to_Systems_transcript.txt" <> ".")
    by discriminate.
  apply (proj2 (proj2 (handler_and_scan_accept_the_same_names env_watch
           "/watched/Chan" "20240101_Intro_to_Systems_transcript.txt"
           eq_refl H1 H2))).
Defined.

(** ** What the creation handler and a failed derivation leave behind *)

(** X21. The creation handler makes no existence check: for a file that
    it accepts, that can be read and that resolves to a Video, it inserts
    a Transcript row for that Video whether or not the Video has one, so
    that the number of Transcript rows of the Video grows by one with
    each event. *)
Theorem on_created_has_no_existence_check E path w key v text :
  PyStr.endswith "_transcript.txt" path = true ->
  read_text E path = Some text ->
  find_video_by_filename (catalog w) path = Some (key, v) ->
  let w' := snd (on_created E {| is_directory := false; src_path := path |} w)
  in
  transcripts (catalog w')
  = (transcripts (catalog w) ++ [transcript_row E key text])%list
  /\ count_occ Nat.eq_dec (map Transcript.video_id (transcripts (catalog w')))
               key
     = S (count_occ Nat.eq_dec
            (map Transcript.video_id (transcripts (catalog w))) key).
Proof.
  intros He Hr Hf; unfold on_created; cbn [is_directory src_path negb andb].
  rewrite He.
  destruct (process_transcript_spec E path w) as [_ H].
  rewrite Hr, Hf in H; destruct H as (Ht & _).
  cbv zeta; rewrite Ht; split; [reflexivity|].
  rewrite map_app, count_occ_app; simpl.
  destruct (Nat.eq_dec key key); [lia | congruence].
Qed.

Lemma on_created_has_no_existence_check_witness :
  count_occ Nat.eq_dec
    (map Transcript.video_id
       (transcripts
          (catalog
             (snd (on_created env_watch
                     {| is_directory := false; src_path := artifact_path |}
                     (snd (scan_existing_transcripts env_watch
                             (world_of
                                (catalog_of_videos [intro_to_systems])))))))))
    0
  = S (count_occ Nat.eq_dec
         (map Transcript.video_id
            (transcripts
               (catalog
                  (snd (scan_existing_transcripts env_watch
                          (world_of
                             (catalog_of_videos [intro_to_systems])))))))
         0).
Proof.
  apply (on_created_has_no_existence_check env_watch artifact_path
           (snd (scan_existing_transcripts env_watch
                   (world_of (catalog_of_videos [intro_to_systems]))))
           0 intro_to_systems "so today we look at page tables").
  - reflexivity.
  - reflexivity.
  - reflexivity.
Defined.

Lemma derive_service_down E tid text pt w :
  (forall model prompt, create_completion E model prompt = None) ->
  succeeds E tid text w pt = false.
Proof.
  intros H; unfold succeeds, derive, bind, chat_completions_create.
  now rewrite H.
Qed.

(** X22. Derivations that fail are not tried again.  When the inference
    service refuses every request, [process_transcript] still inserts the
    Transcript row, with no Artifact row; from then on the start-up scan,
    in whatever environment, passes the artifact over because its Video
    has a Transcript. *)
Theorem failed_derivations_are_not_retried E E' path w key v text :
  read_text E path = Some text ->
  find_video_by_filename (catalog w) path = Some (key, v) ->
  (forall model prompt, create_completion E model prompt = None) ->
  let w' := snd (process_transcript E path w) in
  transcripts (catalog w')
  = (transcripts (catalog w) ++ [transcript_row E key text])%list
  /\ processed_content (catalog w') = processed_content (catalog w)
  /\ scan_transcript E' path w' = (Return tt, w').
Proof.
  intros Hr Hf Hdown w'.
  assert (Ht : transcripts (catalog w')
               = (transcripts (catalog w) ++ [transcript_row E key text])%list).
  { destruct (process_transcript_spec E path w) as [_ H].
    rewrite Hr, Hf in H; apply H. }
  assert (Hv : videos (catalog w') = videos (catalog w)).
  { destruct (process_transcript_spec E path w) as [_ H].
    rewrite Hr, Hf in H; apply H. }
  split; [exact Ht|split].
  - subst w'; unfold process_transcript, try_except.
    rewrite process_transcript_try_eq, Hr, Hf.
    set (w1 := snd (insert_transcript (transcript_row E key text) w)).
    destruct (process_with_ai_spec E (length (transcripts (catalog w)))
                text w1) as (H0 & _ & _ & _ & _ & _ & rows & Hp & Hm & _).
    rewrite (filter_ext _ (fun _ => false)) in Hm
      by (intros pt; now apply derive_service_down).
    destruct rows; [|discriminate].
    rewrite app_nil_r in Hp.
    destruct (process_with_ai E _ text w1) as [[[]|e] w2]; simpl in *;
      try discriminate; exact Hp.
  - apply scanned_noop; unfold scanned.
    rewrite (find_video_by_filename_videos (catalog w) (catalog w') path Hv).
    rewrite Hf; right.
    rewrite Ht, map_app; apply in_or_app; right; now left.
Qed.

(** an inference service that refuses every request *)
Definition env_service_down : Env :=
  {| read_text := fun _ => Some "so today we look at page tables";
     watched_entries := [artifact_path];
     create_completion := fun _ _ => None;
     extract_info := fun _ => None;
     extract_uploader := fun _ => None;
     download := fun _ => true;
     strptime_ymd := fun _ => None;
     json_loads := fun _ => None;
     now_isoformat := "2024-01-02T03:04:05";
     elapsed_ms := fun _ => 250%Z;
     channel_list := [];
     watched_folder := "/watched";
     max_videos := 10 |}.

Lemma failed_derivations_are_not_retried_witness :
  processed_content
    (catalog
       (snd (process_transcript env_service_down artifact_path
               (world_of (catalog_of_videos [intro_to_systems])))))
  = [].
Proof.
  apply (proj1 (proj2 (failed_derivations_are_not_retried env_service_down
           env_watch artifact_path
           (world_of (catalog_of_videos [intro_to_systems]))
           0 intro_to_systems "so today we look at page tables"
           eq_refl eq_refl (fun _ _ => eq_refl)))).
Defined.

(** ** Running again in an unchanged environment *)

Lemma for_each_noop {A} (l : list A) (body : A -> M unit) w :
  (forall x, In x l -> body x w = (Return tt, w)) ->
  for_each l body w = (Return tt, w).
Proof.
  induction l as [|x l IH]; intros H; [reflexivity|].
  cbn [for_each]; unfold bind.
  rewrite (H x) by (now left).
  apply IH; intros y Hy; apply H; now right.
Qed.

(** [registered row l]: [row] is in the channel table [l] and is its only
    row for its channel id *)
Definition registered (row : Channel.t) (l : list Channel.t) : Prop :=
  In row l
  /\ forall r, In r l ->
       Channel.channel_id r = Channel.channel_id row -> r = row.

Lemma upserted_In_inv row l r :
  In r (upserted row l) -> r = row \/ In r l.
Proof.
  unfold upserted; simpl.
  destruct (existsb _ l).
  - intros H; apply in_map_iff in H as (r0 & Hr & Hin).
    destruct (String.eqb _ _); subst; auto.
  - intros H; apply in_app_or in H as [H|[<-|[]]]; auto.
Qed.

Lemma upserted_registered row l : registered row (upserted row l).
Proof.
  split; [apply upserted_In|].
  unfold upserted; simpl; intros r Hin Hid.
  destruct (existsb _ l) eqn:He.
  - apply in_map_iff in Hin as (r0 & Hr & Hin).
    destruct (String.eqb (Channel.channel_id r0) (Channel.channel_id row))
      eqn:H0; [congruence|].
    subst r0; apply String.eqb_neq in H0; contradiction.
  - apply in_app_or in Hin as [Hin|[<-|[]]]; auto.
    assert (existsb (fun r => String.eqb (Channel.channel_id r)
                                         (Channel.channel_id row)) l = true).
    { apply existsb_exists; exists r; split; auto.
      now apply String.eqb_eq. }
    congruence.
Qed.

Lemma registered_upserted row row' l :
  registered row l ->
  Channel.channel_id row' <> Channel.channel_id row \/ row' = row ->
  registered row (upserted row' l).
Proof.
  intros [Hin Hu] Hd; split.
  - apply upserted_In_other; auto.
    destruct Hd as [Hd|Hd]; [left; congruence | right; congruence].
  - intros r Hr Hid.
    apply upserted_In_inv in Hr as [->|Hr]; auto.
    destruct Hd as [Hd|Hd]; [contradiction | exact Hd].
Qed.

Lemma registered_fixed row l : registered row l -> upserted row l = l.
Proof.
  intros [Hin Hu]; unfold upserted; simpl.
  assert (He : existsb (fun r => String.eqb (Channel.channel_id r)
                                            (Channel.channel_id row)) l
               = true).
  { apply existsb_exists; exists row; split; auto; apply String.eqb_refl. }
  rewrite He.
  rewrite <- (map_id l) at 2; apply map_ext_in; intros r Hr.
  destruct (String.eqb (Channel.channel_id r) (Channel.channel_id row))
    eqn:H0; auto.
  apply String.eqb_eq in H0; symmetry; auto.
Qed.

(** [channel_synced E w channel_id]: [sync_channels] has nothing to do
    for the configured id: it is blank, or its lookup fails, or its row
    is registered *)
Definition channel_synced (E : Env) (w : World) (channel_id : string)
  : Prop :=
  forall uploader,
    String.eqb (PyStr.strip channel_id) "" = false ->
    extract_uploader E ("https://www.youtube.com/channel/" ++ channel_id)
    = Some uploader ->
    registered (registered_row channel_id uploader) (channels (catalog w)).

Lemma upsert_channel_fixed row w :
  upserted row (channels (catalog w)) = channels (catalog w) ->
  snd (upsert_channel row w) = w.
Proof.
  destruct w as [[c v t p] l y]; cbn [channels catalog]; intros H.
  change (snd (upsert_channel row
                 {| catalog := {| channels := c; videos := v;
                                  transcripts := t;
                                  processed_content := p |};
                    llm_requests := l; ydl_downloads := y |}))
    with {| catalog := {| channels := upserted row c; videos := v;
                          transcripts := t; processed_content := p |};
            llm_requests := l; ydl_downloads := y |}.
  now rewrite H.
Qed.

Lemma channel_synced_noop E w channel_id :
  channel_synced E w channel_id ->
  sync_channel E channel_id w = (Return tt, w).
Proof.
  intros H; rewrite sync_channel_eq.
  destruct (String.eqb (PyStr.strip channel_id) "") eqn:Hb; [reflexivity|].
  destruct (extract_uploader E _) as [u|] eqn:Hu; [|reflexivity].
  f_equal; apply upsert_channel_fixed, registered_fixed, H; auto.
Qed.

Lemma sync_channel_synced E w channel_id :
  channel_synced E (snd (sync_channel E channel_id w)) channel_id.
Proof.
  intros u Hb Hu; rewrite sync_channel_eq, Hb, Hu.
  cbn [snd]; rewrite upsert_channel_channels.
  apply upserted_registered.
Qed.

Lemma sync_channel_keeps_synced E w cid channel_id :
  channel_synced E w channel_id ->
  channel_synced E (snd (sync_channel E cid w)) channel_id.
Proof.
  intros H u Hb Hu; rewrite sync_channel_eq.
  destruct (String.eqb (PyStr.strip cid) ""); [now apply H|].
  destruct (extract_uploader E ("https://www.youtube.com/channel/" ++ cid))
    as [u'|] eqn:Hu'; [|now apply H].
  cbn [snd]; rewrite upsert_channel_channels.
  apply registered_upserted; [now apply H|].
  destruct (string_dec cid channel_id) as [->|Hd]; [right | left; exact Hd].
  rewrite Hu in Hu'; now injection Hu' as ->.
Qed.

Lemma sync_channels_all_synced E w channel_id :
  In channel_id (channel_list E) ->
  channel_synced E (snd (sync_channels E w)) channel_id.
Proof.
  intros Hin; rewrite sync_channels_loop.
  apply (for_each_establishes
           (fun w0 => channel_synced E w0 channel_id)
           (channel_list E) (sync_channel E) channel_id Hin).
  - apply sync_channel_never_raises.
  - intros w0; apply sync_channel_synced.
  - intros cid w0; apply sync_channel_keeps_synced.
Qed.

Lemma sync_channels_noop E w :
  (forall channel_id, In channel_id (channel_list E) ->
     channel_synced E w channel_id) ->
  sync_channels E w = (Return tt, w).
Proof.
  intros H; rewrite sync_channels_loop.
  apply for_each_noop; intros cid Hin.
  apply channel_synced_noop, H, Hin.
Qed.

(** X23. Synchronising the channels again changes nothing: a second
    [sync_channels] right after a first one, with the same configuration
    and the same answers of the lookups, leaves the world as the first
    one left it. *)
Theorem sync_channels_twice_is_once E w :
  sync_channels E (snd (sync_channels E w))
  = (Return tt, snd (sync_channels E w)).
Proof.
  apply sync_channels_noop; intros cid Hin.
  now apply sync_channels_all_synced.
Qed.

(** ** A second run *)

(** [dated e]: the entry carries an upload date that is not empty *)
Definition dated (e : Entry.t) : bool :=
  negb (String.eqb (get_or (Entry.upload_date e) "") "").

(** [listed E e]: some listing of the fetch engine has the entry *)
Definition listed (E : Env) (e : Entry.t) : Prop :=
  exists url entries, extract_info E url = Some entries /\ In e entries.

(** the listings agree on which video identifiers come with an upload
    date *)
Definition listings_agree (E : Env) : Prop :=
  forall e1 e2,
    listed E e1 -> listed E e2 -> Entry.id e1 = Entry.id e2 ->
    dated e1 = dated e2.

Lemma parse_upload_date_undated E e w :
  dated e = false -> parse_upload_date E e w = (Return None, w).
Proof.
  unfold dated, parse_upload_date.
  destruct (Entry.upload_date e) as [s|]; [|reflexivity]; simpl.
  intros H; apply negb_false_iff in H; now rewrite H.
Qed.

(** A new entry with an upload date stops the loop, by the date parser
    or by the insert, with the world as it was. *)
Lemma download_entries_stops E k e rest n w :
  ~ In (Entry.id e) (video_ids w) -> dated e = true ->
  snd (download_entries E k (e :: rest) n w) = w.
Proof.
  intros Hnew Hd; cbn [download_entries].
  destruct (max_videos E <=? n)%Z; [reflexivity|].
  unfold bind at 1; unfold get_catalog at 1.
  rewrite (select_video_id_absent w _ Hnew).
  unfold bind at 1.
  destruct (parse_upload_date_cases E e w) as [[d Hp]|[Hp _]]; rewrite Hp;
    [|reflexivity].
  destruct d as [d|]; [reflexivity|].
  exfalso; revert Hp Hd; unfold parse_upload_date, dated.
  destruct (Entry.upload_date e) as [s|]; [|discriminate]; simpl.
  destruct (String.eqb s ""); [discriminate|].
  destruct (strptime_ymd E s); discriminate.
Qed.

(** [stalled w entries]: the entries are in the catalog up to the first
    one, if there is one, that is not and carries an upload date *)
Inductive stalled (w : World) : list Entry.t -> Prop :=
| stalled_end : stalled w []
| stalled_skip e rest :
    In (Entry.id e) (video_ids w) -> stalled w rest -> stalled w (e :: rest)
| stalled_stop e rest :
    ~ In (Entry.id e) (video_ids w) -> dated e = true ->
    stalled w (e :: rest).

(** A loop over stalled entries does nothing. *)
Lemma download_entries_noop E k entries n w :
  stalled w entries -> snd (download_entries E k entries n w) = w.
Proof.
  induction 1 as [|e rest He _ IH|e rest He Hd]; [reflexivity| |].
  - cbn [download_entries].
    destruct (max_videos E <=? n)%Z; [reflexivity|].
    unfold bind at 1; unfold get_catalog at 1.
    unfold video_ids in He; apply in_map_iff in He as (v & Hid & Hin).
    destruct (select_video_id_present w (Entry.id e) v Hin Hid)
      as (r & rs & ->).
    exact IH.
  - now apply download_entries_stops.
Qed.

(** [fresh E w w']: video rows were appended, each for the identifier of
    a listed entry without an upload date; the channel table is the
    same *)
Definition fresh (E : Env) (w w' : World) : Prop :=
  channels (catalog w') = channels (catalog w)
  /\ exists new,
       videos (catalog w') = (videos (catalog w) ++ new)%list
       /\ Forall (fun v => exists e,
                    listed E e /\ Entry.id e = Video.video_id v
                    /\ dated e = false) new.

Lemma fresh_refl E w : fresh E w w.
Proof. split; [reflexivity|]; exists []; now rewrite app_nil_r. Qed.

Lemma fresh_trans E w1 w2 w3 :
  fresh E w1 w2 -> fresh E w2 w3 -> fresh E w1 w3.
Proof.
  intros (C1 & n1 & V1 & F1) (C2 & n2 & V2 & F2).
  split; [congruence|].
  exists (n1 ++ n2)%list; rewrite V2, V1, app_assoc; split; auto.
  apply Forall_app; auto.
Qed.

Lemma fresh_incl E w w' : fresh E w w' -> incl (video_ids w) (video_ids w').
Proof.
  intros (_ & new & Hv & _) x Hx; unfold video_ids in *.
  rewrite Hv, map_app; apply in_or_app; now left.
Qed.

Lemma fresh_added E w e row dl :
  listed E e -> dated e = false -> Video.video_id row = Entry.id e ->
  fresh E w (added w row dl).
Proof.
  intros Hl Hd Hid; split; [reflexivity|].
  exists [row]; split; [reflexivity|].
  constructor; [|constructor]; exists e; auto.
Qed.

Lemma video_ids_added w row dl :
  video_ids (added w row dl)
  = (video_ids w ++ [Video.video_id row])%list.
Proof. unfold video_ids; simpl; now rewrite map_app. Qed.

(** One turn of the loop, for a new entry: the loop stops with the world
    as it was when the entry carries an upload date, and goes on with the
    entry's row appended when it carries none. *)
Lemma download_entries_turn E k e rest n w :
  (max_videos E <=? n)%Z = false ->
  ~ In (Entry.id e) (video_ids w) ->
  (dated e = true /\ snd (download_entries E k (e :: rest) n w) = w)
  \/ (dated e = false
      /\ exists n' row dl,
           (n' <= n + 1)%Z /\ Video.video_id row = Entry.id e
           /\ download_entries E k (e :: rest) n w
              = download_entries E k rest n' (added w row dl)).
Proof.
  intros Hcap Hnew.
  destruct (dated e) eqn:Hd;
    [left; split; auto; now apply download_entries_stops|].
  right; split; [reflexivity|].
  cbn [download_entries]; rewrite Hcap.
  unfold bind at 1; unfold get_catalog at 1.
  rewrite (select_video_id_absent w _ Hnew).
  unfold bind at 1; rewrite (parse_upload_date_undated E e w Hd).
  change (bind (insert_video (video_data k e None))
               (fun key => bind (download_entry E key e n)
                                (fun n' => download_entries E k rest n')) w)
    with (bind (bind (insert_video (video_data k e None))
                     (fun key => download_entry E key e n))
               (fun n' => download_entries E k rest n') w).
  unfold bind at 1; rewrite entry_turn.
  destruct (Entry.title e) as [t|];
    [destruct (download E (watch_url (Entry.id e)))|];
    eexists _, _, _; (split; [|split; [|reflexivity]]);
    try reflexivity; lia.
Qed.

Lemma download_entries_fresh E k entries : forall n w,
  Forall (listed E) entries ->
  fresh E w (snd (download_entries E k entries n w)).
Proof.
  induction entries as [|e rest IH]; intros n w Hl; [apply fresh_refl|].
  inversion Hl as [|? ? He Hrest]; subst.
  destruct (max_videos E <=? n)%Z eqn:Hcap.
  { cbn [download_entries]; rewrite Hcap; apply fresh_refl. }
  destruct (in_dec string_dec (Entry.id e) (video_ids w)) as [Hin|Hnew].
  - unfold video_ids in Hin; apply in_map_iff in Hin as (v & Hid & Hin).
    rewrite (download_entries_skip E k e rest n w v Hcap Hin Hid).
    now apply IH.
  - destruct (download_entries_turn E k e rest n w Hcap Hnew)
      as [[_ ->]|(Hd & n' & row & dl & _ & Hid & ->)];
      [apply fresh_refl|].
    eapply fresh_trans; [eapply fresh_added; eauto | now apply IH].
Qed.

(** Within the cap, the loop leaves its entries stalled. *)
Lemma download_entries_stalls E k entries : forall n w,
  Forall (listed E) entries ->
  (n + Z.of_nat (length entries) <= max_videos E)%Z ->
  stalled (snd (download_entries E k entries n w)) entries.
Proof.
  induction entries as [|e rest IH]; intros n w Hl Hn; [constructor|].
  inversion Hl as [|? ? He Hrest]; subst.
  cbn [length] in Hn.
  assert (Hcap : (max_videos E <=? n)%Z = false) by (apply Z.leb_gt; lia).
  destruct (in_dec string_dec (Entry.id e) (video_ids w)) as [Hin|Hnew].
  - pose proof Hin as Hin'.
    unfold video_ids in Hin; apply in_map_iff in Hin as (v & Hid & Hin).
    rewrite (download_entries_skip E k e rest n w v Hcap Hin Hid).
    apply stalled_skip; [|apply IH; auto; lia].
    exact (fresh_incl E w _ (download_entries_fresh E k rest n w Hrest)
                      _ Hin').
  - destruct (download_entries_turn E k e rest n w Hcap Hnew)
      as [[Hd ->]|(Hd & n' & row & dl & Hn' & Hid & ->)].
    + now apply stalled_stop.
    + apply stalled_skip; [|apply IH; auto; lia].
      apply (fresh_incl E (added w row dl) _
               (download_entries_fresh E k rest n' _ Hrest)).
      rewrite video_ids_added, Hid; apply in_or_app; right; now left.
Qed.

(** Rows appended for entries without an upload date leave stalled
    entries stalled, when the listings agree. *)
Lemma stalled_fresh E w w' entries :
  listings_agree E -> Forall (listed E) entries ->
  fresh E w w' -> stalled w entries -> stalled w' entries.
Proof.
  intros Ha Hl Hf H; induction H as [|e rest He _ IH|e rest He Hd].
  - constructor.
  - inversion Hl; subst.
    apply stalled_skip; [exact (fresh_incl E w w' Hf _ He) | auto].
  - inversion Hl as [|? ? Hle _]; subst.
    apply stalled_stop; [|exact Hd].
    intros Hin; destruct Hf as (_ & new & Hv & Hnew).
    unfold video_ids in Hin; rewrite Hv, map_app in Hin.
    apply in_app_or in Hin as [Hin|Hin]; [now apply He|].
    apply in_map_iff in Hin as (v & Hid & Hin).
    rewrite Forall_forall in Hnew.
    destruct (Hnew v Hin) as (e' & Hl' & Hid' & Hd').
    rewrite (Ha e e' Hle Hl') in Hd by congruence.
    congruence.
Qed.

(** [channel_fetched E w channel_id]: [download_channel_videos] has
    nothing to do for the channel: it cannot be listed, or it is not
    registered under one row, or the cap is not positive, or the entries
    within the cap are stalled *)
Definition channel_fetched (E : Env) (w : World) (channel_id : string)
  : Prop :=
  forall entries k r,
    extract_info E ("https://www.youtube.com/channel/" ++ channel_id
                    ++ "/videos") = Some entries ->
    Table.select (fun r => String.eqb (Channel.channel_id r) channel_id)
                 (channels (catalog w)) = [(k, r)] ->
    (0 < max_videos E)%Z ->
    stalled w (py_slice_to (max_videos E) entries).

Lemma channel_fetched_noop E w channel_id :
  channel_fetched E w channel_id ->
  download_channel_videos E channel_id w = (Return tt, w).
Proof.
  intros H; rewrite download_channel_videos_eq.
  destruct (extract_info E _) as [entries|] eqn:Hi; [|reflexivity].
  destruct (Table.select _ (channels (catalog w))) as [|[k r] [|]] eqn:Hs;
    try reflexivity.
  f_equal.
  destruct (Z.le_gt_cases (max_videos E) 0) as [Hm|Hm].
  - now rewrite download_entries_capped.
  - apply download_entries_noop, (H entries k r); auto; lia.
Qed.

Lemma py_slice_to_incl {A} (n : Z) (l : list A) : incl (py_slice_to n l) l.
Proof.
  assert (H : forall m, incl (firstn m l) l).
  { intros m x Hx; rewrite <- (firstn_skipn m l).
    apply in_or_app; now left. }
  unfold py_slice_to; destruct (0 <=? n)%Z; apply H.
Qed.

Lemma py_slice_to_listed E url entries :
  extract_info E url = Some entries ->
  Forall (listed E) (py_slice_to (max_videos E) entries).
Proof.
  intros Hi; apply Forall_forall; intros e He.
  exists url, entries; split; [exact Hi|].
  now apply (py_slice_to_incl (max_videos E) entries).
Qed.

Lemma download_channel_videos_fresh E channel_id w :
  fresh E w (snd (download_channel_videos E channel_id w)).
Proof.
  rewrite download_channel_videos_eq.
  destruct (extract_info E _) as [entries|] eqn:Hi; [|apply fresh_refl].
  destruct (Table.select _ (channels (catalog w))) as [|[k r] [|]];
    try apply fresh_refl.
  cbn [snd]; apply download_entries_fresh.
  eapply py_slice_to_listed; eauto.
Qed.

Lemma download_channel_videos_fetches E channel_id w :
  channel_fetched E (snd (download_channel_videos E channel_id w))
                  channel_id.
Proof.
  intros entries k r Hi Hs Hm.
  rewrite (proj1 (download_channel_videos_fresh E channel_id w)) in Hs.
  rewrite download_channel_videos_eq, Hi, Hs; cbn [snd].
  apply download_entries_stalls.
  - eapply py_slice_to_listed; eauto.
  - pose proof (length_py_slice_to (max_videos E) entries) as Hl; lia.
Qed.

Lemma channel_fetched_fresh E w w' channel_id :
  listings_agree E -> fresh E w w' ->
  channel_fetched E w channel_id -> channel_fetched E w' channel_id.
Proof.
  intros Ha Hf H entries k r He Hs Hm.
  rewrite (proj1 Hf) in Hs.
  apply (stalled_fresh E w w' _ Ha (py_slice_to_listed E _ entries He) Hf).
  exact (H entries k r He Hs Hm).
Qed.

Lemma download_loop_fetches E (l : list (nat * Channel.t)) x w :
  listings_agree E -> In x l ->
  channel_fetched E
    (snd (for_each l (fun r => download_channel_videos E
                                 (Channel.channel_id (snd r))) w))
    (Channel.channel_id (snd x)).
Proof.
  intros Ha Hin.
  apply (for_each_establishes
           (fun w0 => channel_fetched E w0 (Channel.channel_id (snd x)))
           l (fun r => download_channel_videos E
                         (Channel.channel_id (snd r))) x Hin).
  - intros y w0; apply download_channel_videos_adds.
  - intros w0; apply download_channel_videos_fetches.
  - intros y w0 H0.
    eapply channel_fetched_fresh; eauto.
    apply download_channel_videos_fresh.
Qed.

(** X24. Running the acquisition engine again changes nothing, when the
    environment is the same and its listings agree on which video
    identifiers come with an upload date: a second run right after a
    first one inserts no row, updates none and sends no download request.
    What the first run has left out, the entries after a new one with an
    upload date, the second leaves out as well. *)
Theorem run_twice_is_run_once E w :
  listings_agree E ->
  run E (snd (run E w)) = (Return tt, snd (run E w)).
Proof.
  intros Ha.
  assert (Hc : channels (catalog (snd (run E w)))
               = channels (catalog (snd (sync_channels E w)))).
  { destruct (run_grown E w) as (_ & _ & new & dl & G); apply G. }
  assert (Hs : sync_channels E (snd (run E w)) = (Return tt, snd (run E w))).
  { apply sync_channels_noop; intros cid Hin u Hb Hu.
    rewrite Hc; now apply sync_channels_all_synced. }
  rewrite (run_eq E (snd (run E w))), Hs; cbn [snd]; rewrite Hc.
  apply for_each_noop; intros x Hx.
  apply channel_fetched_noop.
  rewrite (run_eq E w).
  now apply download_loop_fetches.
Qed.

(** the listing of channel abc123 with an upload date for its last
    entry *)
Definition env_abc123_mixed : Env :=
  {| read_text := read_text env_abc123;
     watched_entries := watched_entries env_abc123;
     create_completion := create_completion env_abc123;
     extract_info := fun url =>
       if String.eqb url "https://www.youtube.com/channel/abc123/videos"
       then Some [entry_of "v1" "One"; entry_of "v2" "Two";
                  entry_dated "v3" "Three"; entry_of "v4" "Four"]
       else None;
     extract_uploader := extract_uploader env_abc123;
     download := download env_abc123;
     strptime_ymd := strptime_ymd env_abc123;
     json_loads := json_loads env_abc123;
     now_isoformat := now_isoformat env_abc123;
     elapsed_ms := elapsed_ms env_abc123;
     channel_list := channel_list env_abc123;
     watched_folder := watched_folder env_abc123;
     max_videos := max_videos env_abc123 |}.

Lemma listings_agree_mixed : listings_agree env_abc123_mixed.
Proof.
  assert (L : forall e, listed env_abc123_mixed e ->
            In e [entry_of "v1" "One"; entry_of "v2" "Two";
                  entry_dated "v3" "Three"; entry_of "v4" "Four"]).
  { intros e (url & entries & Hi & He).
    unfold env_abc123_mixed in Hi; cbn [extract_info] in Hi.
    destruct (String.eqb url _); [|discriminate].
    now injection Hi as <-. }
  intros e1 e2 H1 H2 Hid.
  apply L in H1, H2.
  destruct H1 as [<-|[<-|[<-|[<-|[]]]]];
    destruct H2 as [<-|[<-|[<-|[<-|[]]]]];
    reflexivity || discriminate.
Qed.

Lemma run_twice_is_run_once_witness :
  run env_abc123_mixed (snd (run env_abc123_mixed world_abc123))
  = (Return tt, snd (run env_abc123_mixed world_abc123)).
Proof.
  apply (run_twice_is_run_once env_abc123_mixed world_abc123).
  exact listings_agree_mixed.
Defined.

(** two channels list the same video, one with an upload date and one
    without *)
Definition env_two_channels : Env :=
  {| read_text := read_text env_abc123;
     watched_entries := watched_entries env_abc123;
     create_completion := create_completion env_abc123;
     extract_info := fun url =>
       if String.eqb url "https://www.youtube.com/channel/first/videos"
       then Some [entry_dated "x1" "Shared"; entry_of "y1" "Own"]
       else if String.eqb url "https://www.youtube.com/channel/second/videos"
       then Some [entry_of "x1" "Shared"]
       else None;
     extract_uploader := extract_uploader env_abc123;
     download := download env_abc123;
     strptime_ymd := strptime_ymd env_abc123;
     json_loads := json_loads env_abc123;
     now_isoformat := now_isoformat env_abc123;
     elapsed_ms := elapsed_ms env_abc123;
     channel_list := ["first"; "second"];
     watched_folder := watched_folder env_abc123;
     max_videos := max_videos env_abc123 |}.

(** X25. When two listings disagree on the upload date of a video, a
    second run can insert what the first one left out, even though the
    dates parse: the first run stops at the dated entry of the first
    channel and inserts the video from the listing of the second channel;
    the second run then skips it in the first channel and inserts the
    entry after it. *)
Theorem second_run_after_disagreeing_listings :
  strptime_ymd env_two_channels "20240101"
  = Some {| year := 2024; month := 1; day := 1 |}
  /\ video_ids (snd (run env_two_channels (world_of (catalog_of_videos []))))
     = ["x1"]
  /\ video_ids
       (snd (run env_two_channels
               (snd (run env_two_channels
                       (world_of (catalog_of_videos []))))))
     = ["x1"; "y1"]
  /\ ydl_downloads
       (snd (run env_two_channels
               (snd (run env_two_channels
                       (world_of (catalog_of_videos []))))))
     = [watch_url "x1"; watch_url "y1"].
Proof. vm_compute; repeat split. Qed.
